(** * Flow log parser: a shallow embedding of [main.mjs] and its properties

    The program reads a flow log and a CSV lookup table, joins every log
    record against the table on the key "dstport,protocol" and counts records
    per tag and per key.  This file embeds the pure core of [main.mjs]
    ([handleFields], [parseLineFromLog], [parseLog], [serialize],
    [parseCSVLine], [buildLookupTable] and the counting loop of [main]) and
    proves the properties stated about it.

    Strings.  A JavaScript string is a sequence of UTF-16 code units.  The
    model uses Rocq's [string], whose characters are the 256 code units
    U+0000..U+00FF (ASCII and Latin-1); on these, [trim], [split],
    [toLowerCase] and [parseInt] below follow ECMAScript exactly.

    Objects used as dictionaries ([{}] filled by [acc[key] = value]) are
    finite maps [gmap string _]; the two [Map]s of [main], whose iteration
    order is the order of first insertion, are association lists. *)

From Stdlib Require Import ZArith Ascii List Lia.
From Stdlib Require DecimalString DecimalNat.
From stdpp Require Import base option list strings gmap fin_maps.

(** ** JavaScript string primitives *)

Module JS.

(** WhiteSpace and LineTerminator code units below U+0100: TAB, LF, VT, FF,
    CR, SPACE and NO-BREAK SPACE.  These are what [String.prototype.trim]
    and [parseInt] strip. *)
Definition isWhiteSpace (c : ascii) : bool :=
  match c with
  | "009" | "010" | "011" | "012" | "013" | " " | "160" => true
  | _ => false
  end%char.

Definition isDigit (c : ascii) : bool :=
  match c with
  | "0" | "1" | "2" | "3" | "4" | "5" | "6" | "7" | "8" | "9" => true
  | _ => false
  end%char.

Definition digitValue (c : ascii) : Z :=
  match c with
  | "1" => 1 | "2" => 2 | "3" => 3 | "4" => 4 | "5" => 5
  | "6" => 6 | "7" => 7 | "8" => 8 | "9" => 9 | _ => 0
  end%char%Z.

(** [s.trimStart()] *)
Fixpoint trimStart (s : string) : string :=
  match s with
  | String c s' => if isWhiteSpace c then trimStart s' else s
  | EmptyString => EmptyString
  end.

(** [s.trimEnd()] *)
Fixpoint trimEnd (s : string) : string :=
  match s with
  | String c s' =>
      match trimEnd s' with
      | EmptyString => if isWhiteSpace c then EmptyString else String c EmptyString
      | t => String c t
      end
  | EmptyString => EmptyString
  end.

(** [s.trim()] *)
Definition trim (s : string) : string := trimEnd (trimStart s).

(** [s.split(sep)] for a separator of one code unit.  The result is never
    empty: [("").split(sep)] is [[""]], and two adjacent separators enclose
    an empty token. *)
Fixpoint split (sep : ascii) (s : string) : list string :=
  match s with
  | EmptyString => [EmptyString]
  | String c s' =>
      if Ascii.eqb c sep then EmptyString :: split sep s'
      else match split sep s' with
           | t :: ts => String c t :: ts
           | [] => [String c EmptyString]
           end
  end.

(** Lower-case mapping of one code unit: A-Z, and the Latin-1 capitals
    U+00C0..U+00DE except the multiplication sign U+00D7. *)
Definition toLowerChar (c : ascii) : ascii :=
  let n := N_of_ascii c in
  if ((65 <=? n) && (n <=? 90) || (192 <=? n) && (n <=? 222) && negb (n =? 215))%N
  then ascii_of_N (n + 32) else c.

(** [s.toLowerCase()] *)
Fixpoint toLowerCase (s : string) : string :=
  match s with
  | String c s' => String (toLowerChar c) (toLowerCase s')
  | EmptyString => EmptyString
  end.

(** The longest prefix of decimal digits, and its value. *)
Fixpoint digitPrefix (s : string) : string :=
  match s with
  | String c s' => if isDigit c then String c (digitPrefix s') else EmptyString
  | EmptyString => EmptyString
  end.

Fixpoint mathInt (digits : string) (acc : Z) : Z :=
  match digits with
  | String c s' => mathInt s' (10 * acc + digitValue c)
  | EmptyString => acc
  end.

(** [parseInt(s, 10)]: skip leading white space, read an optional sign,
    then the longest run of decimal digits; [None] is NaN (no digit).  With
    radix 10 no "0x" prefix is recognised.  The result is the mathematical
    integer; a Number holds it exactly below 2^53, and -0 is 0. *)
Definition parseInt (s : string) : option Z :=
  let str := trimStart s in
  let '(sign, str) :=
    match str with
    | String "-"%char r => ((-1)%Z, r)
    | String "+"%char r => (1%Z, r)
    | _ => (1%Z, str)
    end in
  match digitPrefix str with
  | EmptyString => None
  | digits => Some (sign * mathInt digits 0)%Z
  end.

(** ToString of a value that is a string or [undefined], as in a template
    literal [`${v}`] or a property key. *)
Definition ToString (v : option string) : string :=
  match v with Some s => s | None => "undefined" end.

End JS.

(** ** JavaScript [Map] with number values

    A [Map] iterates in the order of first insertion; [set] on a key that is
    present keeps its position.  The counts are Numbers; they are modelled as
    [nat] (a count stays exact up to 2^53, far beyond the length of any
    array). *)

Module JSMap.

Definition t : Type := list (string * nat).

Fixpoint get (m : t) (k : string) : option nat :=
  match m with
  | [] => None
  | (k', v) :: m' => if decide (k' = k) then Some v else get m' k
  end.

Fixpoint set (m : t) (k : string) (v : nat) : t :=
  match m with
  | [] => [(k, v)]
  | (k', v') :: m' =>
      if decide (k' = k) then (k, v) :: m' else (k', v') :: set m' k v
  end.

(** [!m.get(k)]: [undefined] and [0] are falsy. *)
Definition missing (m : t) (k : string) : bool :=
  match get m k with
  | None | Some 0 => true
  | Some (S _) => false
  end.

(** The value of [m.get(k)] as a count, reading an absent key as 0. *)
Definition count (m : t) (k : string) : nat := default 0 (get m k).

(** The sum of all values. *)
Definition total (m : t) : nat := foldr (fun kv s => kv.2 + s) 0 m.

End JSMap.

(** ** The program *)

(** An entry of the table exported by [iana-protocol-numbers.mjs]; the
    program reads only its [name]. *)
Record ProtocolNumber := { name : string }.

Inductive JSError := TypeError.

(** The outcome of evaluating an expression that may throw. *)
Inductive Completion (A : Type) :=
| Normal (a : A)
| Throw (e : JSError).
Arguments Normal {A} a.
Arguments Throw {A} e.

Definition AVAILABLE_FIELDS_DEFAULT : list string :=
  [ "version"; "account-id"; "interface-id"; "srcaddr"; "dstaddr"; "srcport";
    "dstport"; "protocol"; "packets"; "bytes"; "start"; "end"; "action";
    "log-status" ].

Definition LOOKUP_DEFAULT_FORMAT : list string := ["dstport"; "protocol"; "tag"].

(** The result of [parseCSVLine]: [{ key, value }]. *)
Record LookupEntry := { key : string; value : option string }.

(** [serialize(k, v)]: the template literal [`${k},${v}`], lower-cased. *)
Definition serialize (k v : option string) : string :=
  JS.toLowerCase (JS.ToString k +:+ "," +:+ JS.ToString v).

Definition parseCSVLine (line : string) (format : list string) : option LookupEntry :=
  let linesArr := JS.split ","%char (JS.trim line) in
  if negb (length linesArr =? length format)%nat then None
  else if bool_decide (linesArr !! 0 = Some "" \/ linesArr !! 1 = Some "" \/
                       linesArr !! 2 = Some "")
  then None
  else Some {| key := serialize (linesArr !! 0) (linesArr !! 1);
               value := linesArr !! 2 |}.

(** The two plain objects of the program: a FlowRecord maps field names to
    values, the LookupTable maps join keys to tags. *)
Abbreviation FlowRecord := (gmap string string) (only parsing).
Abbreviation LookupTable := (gmap string string) (only parsing).

(** [acc[k] = v] on a plain object that is only ever read by [acc[k']]: a
    stored [undefined] reads back like an absent key.  (With the 3-field
    format the value is never [undefined].)  Every key comes from
    [serialize] and so contains a comma: it never names a property the
    object inherits. *)
Definition setProperty (acc : LookupTable) (k : string) (v : option string)
  : LookupTable :=
  match v with
  | Some s => <[k := s]> acc
  | None => delete k acc
  end.

(** The callback of the [reduce] in [buildLookupTable]. *)
Definition addLookupLine (acc : LookupTable) (line : string) : LookupTable :=
  match parseCSVLine line LOOKUP_DEFAULT_FORMAT with
  | Some parsed => setProperty acc (key parsed) (value parsed)
  | None => acc
  end.

Definition buildLookupTable (csv : string) : LookupTable :=
  foldl addLookupLine ∅ (JS.split "010"%char (JS.trim csv)).

Section FlowLog.

(** The table of [iana-protocol-numbers.mjs], read at the keys a Number can
    name: [protocol_numbers z] is the entry stored under the decimal
    spelling of the integer [z], if any.  (The IANA numbers are 0..255.) *)
Variable protocol_numbers : Z -> option ProtocolNumber.

(** [protocol_numbers[IANAInt].name]: reading [.name] of [undefined] throws
    a TypeError; NaN names no entry. *)
Definition protocolName (IANAInt : option Z) : Completion string :=
  match IANAInt ≫= protocol_numbers with
  | Some entry => Normal (name entry)
  | None => Throw TypeError
  end.

Definition handleFields (key value : string) : string :=
  if bool_decide (key = "protocol") then
    match protocolName (JS.parseInt value) with
    | Normal protocolName => protocolName
    | Throw err => value
    end
  else value.

(** [linesArr.reduce((acc, line, idx) => ..., {})], from index [idx] on.
    [format[idx]] is defined whenever the length test of [parseLineFromLog]
    has passed; as a property key [undefined] would read "undefined". *)
Fixpoint reduceFields (format linesArr : list string) (idx : nat)
    (acc : FlowRecord) : FlowRecord :=
  match linesArr with
  | [] => acc
  | line :: rest =>
      let key := JS.ToString (format !! idx) in
      let value := handleFields key line in
      reduceFields format rest (S idx) (<[key := value]> acc)
  end.

(** [None] is the [null] of a skipped line. *)
Definition parseLineFromLog (line : string) (format : list string)
  : option FlowRecord :=
  let linesArr := JS.split " "%char (JS.trim line) in
  if negb (length linesArr =? length format)%nat then None
  else Some (reduceFields format linesArr 0 ∅).

Definition parseLog (logfile : string) : list FlowRecord :=
  omap (fun line => parseLineFromLog line AVAILABLE_FIELDS_DEFAULT)
       (JS.split "010"%char (JS.trim logfile)).

(** *** The counting loop of [main] *)

(** [table[portProtocolKey]], with "untagged" for [undefined]. *)
Definition tagOf (table : LookupTable) (portProtocolKey : string) : string :=
  default "untagged" (table !! portProtocolKey).

(** [if (!counts.get(k)) counts.set(k, 0); counts.set(k, counts.get(k) + 1)].
    In the second statement the key is present ([JSMapFacts.get_guarded]), so
    reading it through [JSMap.count] is exact. *)
Definition increment (counts : JSMap.t) (k : string) : JSMap.t :=
  let counts := if JSMap.missing counts k then JSMap.set counts k 0 else counts in
  JSMap.set counts k (JSMap.count counts k + 1).

(** The body of [logs.forEach], on the pair of the two [Map]s. *)
Definition countLog (table : LookupTable)
    (counts : JSMap.t * JSMap.t) (log : FlowRecord) : JSMap.t * JSMap.t :=
  let '(tagCounts, portProtocolCounts) := counts in
  let portProtocolKey := serialize (log !! "dstport") (log !! "protocol") in
  let tag := tagOf table portProtocolKey in
  (increment tagCounts tag, increment portProtocolCounts portProtocolKey).

Definition tagCounts0 : JSMap.t := [("untagged", 0)].
Definition portProtocolCounts0 : JSMap.t := [].

Definition countLogs (logs : list FlowRecord) (table : LookupTable)
  : JSMap.t * JSMap.t :=
  foldl (countLog table) (tagCounts0, portProtocolCounts0) logs.

(** [main] between reading the two files and rendering the report. *)
Definition main (lookupBuffer logfileBuffer : string) : JSMap.t * JSMap.t :=
  let logs := parseLog logfileBuffer in
  let table := buildLookupTable lookupBuffer in
  countLogs logs table.

End FlowLog.

(** ** Auxiliary definitions for the statements *)

(** [allChars p s]: every code unit of [s] satisfies [p]. *)
Fixpoint allChars (p : ascii -> bool) (s : string) : bool :=
  match s with
  | String c s' => p c && allChars p s'
  | EmptyString => true
  end.

Definition notChar (sep c : ascii) : bool := negb (Ascii.eqb c sep).
Definition notWhiteSpace (c : ascii) : bool := negb (JS.isWhiteSpace c).

(** The number of occurrences of [sep] in [s]. *)
Fixpoint countChar (sep : ascii) (s : string) : nat :=
  match s with
  | String c s' => (if Ascii.eqb c sep then 1 else 0) + countChar sep s'
  | EmptyString => 0
  end.

(** [join sep l] is [l.join(sep)]. *)
Fixpoint join (sep : ascii) (l : list string) : string :=
  match l with
  | [] => ""
  | [x] => x
  | x :: rest => x +:+ String sep (join sep rest)
  end.

(** A field: a nonempty run of characters that are not white space. *)
Definition isField (f : string) : Prop :=
  f <> "" /\ allChars notWhiteSpace f = true.

(** The tokenisation the specification describes, for comparison with the
    program's: the line is trimmed and split on runs of white space, as
    [line.trim().split(/\s+/)] would.  [whiteSpaceRuns] collects the maximal
    runs of characters that are not white space. *)
Fixpoint whiteSpaceRuns (s : string) : list string :=
  match s with
  | EmptyString => []
  | String c s' =>
      if JS.isWhiteSpace c then whiteSpaceRuns s'
      else match s' with
           | EmptyString => [String c EmptyString]
           | String c' _ =>
               if JS.isWhiteSpace c' then String c EmptyString :: whiteSpaceRuns s'
               else match whiteSpaceRuns s' with
                    | t :: ts => String c t :: ts
                    | [] => [String c EmptyString]
                    end
           end
  end.

Definition spec_tokens (line : string) : list string :=
  match whiteSpaceRuns (JS.trim line) with
  | [] => [EmptyString]
  | tokens => tokens
  end.

(** The decimal spelling of a natural number, as [String(n)] prints it. *)
Definition decimal (n : nat) : string :=
  DecimalString.NilEmpty.string_of_uint (Nat.to_uint n).

Definition startsWithDigit (s : string) : bool :=
  match s with
  | String c _ => JS.isDigit c
  | EmptyString => false
  end.

(** A lookup line breaks the 3-field format when its comma-separated tokens
    do not number 3 or one of them is empty. *)
Definition violatesFormat (tokens : list string) : Prop :=
  length tokens <> 3 \/ "" ∈ tokens.

(** No line of [lines] is accepted with the key [k]. *)
Definition noLineWithKey (k : string) (lines : list string) : Prop :=
  Forall (fun l => forall e, parseCSVLine l LOOKUP_DEFAULT_FORMAT = Some e -> key e <> k)
         lines.

(** *** Inputs that differ only in the letter case of dstport and protocol *)

(** Two values (strings or [undefined]) that differ at most in letter case. *)
Definition sameModuloCase (v v' : option string) : Prop :=
  JS.toLowerCase <$> v = JS.toLowerCase <$> v'.

(** Two FlowRecords whose [dstport] and [protocol] differ at most in case. *)
Definition recordsModuloCase (log log' : FlowRecord) : Prop :=
  sameModuloCase (log !! "dstport") (log' !! "dstport") /\
  sameModuloCase (log !! "protocol") (log' !! "protocol").

(** Two log lines with the same number of tokens whose dstport and protocol
    tokens (positions 6 and 7) differ at most in case.  The other tokens do
    not reach the counts and are not constrained. *)
Definition logLinesModuloCase (line line' : string) : Prop :=
  let linesArr := JS.split " " (JS.trim line) in
  let linesArr' := JS.split " " (JS.trim line') in
  length linesArr = length linesArr' /\
  sameModuloCase (linesArr !! 6) (linesArr' !! 6) /\
  sameModuloCase (linesArr !! 7) (linesArr' !! 7).

(** Two lookup lines with the same number of tokens and the same tag whose
    dstport and protocol tokens differ at most in case. *)
Definition csvLinesModuloCase (line line' : string) : Prop :=
  let linesArr := JS.split "," (JS.trim line) in
  let linesArr' := JS.split "," (JS.trim line') in
  length linesArr = length linesArr' /\
  sameModuloCase (linesArr !! 0) (linesArr' !! 0) /\
  sameModuloCase (linesArr !! 1) (linesArr' !! 1) /\
  linesArr !! 2 = linesArr' !! 2.

(** ** Sample inputs *)

(** A protocol table: 1, 6 and 17 as in the IANA registry. *)
Definition iana_sample (z : Z) : option ProtocolNumber :=
  if (z =? 1)%Z then Some {| name := "ICMP" |}
  else if (z =? 6)%Z then Some {| name := "TCP" |}
  else if (z =? 17)%Z then Some {| name := "UDP" |}
  else None.

Definition sample_fields : list string :=
  [ "2"; "123456789012"; "eni-abc"; "10.0.0.1"; "10.0.0.2"; "443"; "80"; "6";
    "10"; "1000"; "1610000000"; "1610000010"; "ACCEPT"; "OK" ].

Definition sample_line : string :=
  "2 123456789012 eni-abc 10.0.0.1 10.0.0.2 443 80 6 10 1000 1610000000 1610000010 ACCEPT OK".

(** The sample line with two spaces after the first field. *)
Definition double_spaced_line : string :=
  "2  123456789012 eni-abc 10.0.0.1 10.0.0.2 443 80 6 10 1000 1610000000 1610000010 ACCEPT OK".

(** The sample line with two spaces between [dstport] and [protocol]. *)
Definition double_spaced_protocol_line : string :=
  "2 123456789012 eni-abc 10.0.0.1 10.0.0.2 443 80  6 10 1000 1610000000 1610000010 ACCEPT OK".

(** The sample line with tabs between the fields. *)
Definition tabbed_line : string := join "009" sample_fields.

(** The sample line with the protocol token "6abc". *)
Definition prefix_line : string :=
  "2 123456789012 eni-abc 10.0.0.1 10.0.0.2 443 80 6abc 10 1000 1610000000 1610000010 ACCEPT OK".

(** Two logs that differ in the case of a protocol token. *)
Definition upper_log : string :=
  "2 123456789012 eni-abc 10.0.0.1 10.0.0.2 443 80 TCP 10 1000 1610000000 1610000010 ACCEPT OK"
  +:+ String "010"
  "2 123456789012 eni-abc 10.0.0.1 10.0.0.2 443 25 6 10 1000 1610000000 1610000010 ACCEPT OK".

Definition lower_log : string :=
  "2 123456789012 eni-abc 10.0.0.1 10.0.0.2 443 80 tcp 10 1000 1610000000 1610000010 ACCEPT OK"
  +:+ String "010"
  "2 123456789012 eni-abc 10.0.0.1 10.0.0.2 443 25 6 10 1000 1610000000 1610000010 ACCEPT OK".

(** Lookup files: two that differ in the case of a protocol token, one with
    Windows line ends, one with a repeated key. *)
Definition sample_csv : string := "80,TCP,web" +:+ String "010" "25,tcp,mail".
Definition sample_csv_lower : string := "80,tcp,web" +:+ String "010" "25,tcp,mail".

Definition crlf_csv : string :=
  "80,tcp,web" +:+ String "013" (String "010" "25,tcp,mail").

Definition duplicate_csv : string :=
  "80,tcp,web" +:+ String "010" "80,TCP,other".

Definition web_table : LookupTable := {[ "80,tcp" := "web" ]}.

Definition web_log : FlowRecord :=
  <[ "dstport" := "80" ]> {[ "protocol" := "TcP" ]}.

Definition ssh_log : FlowRecord :=
  <[ "dstport" := "22" ]> {[ "protocol" := "TCP" ]}.

(** ** The rest of [main.mjs]: the report and the command line *)

(** The join key of a record, [serialize(log.dstport, log.protocol)], and
    its tag. *)
Definition joinKey (log : FlowRecord) : string :=
  serialize (log !! "dstport") (log !! "protocol").

Definition tagOfLog (table : LookupTable) (log : FlowRecord) : string :=
  tagOf table (joinKey log).

(** [for (let [k, v] of counts) output += `${k}=${v}\n`]: the entries in
    the order of the [Map]; a count prints as its decimal digits. *)
Fixpoint appendCounts (output : string) (counts : JSMap.t) : string :=
  match counts with
  | [] => output
  | (k, v) :: rest =>
      appendCounts (output +:+ (k +:+ "=" +:+ decimal v +:+ String "010" "")) rest
  end.

(** The text that [main] writes to the output file. *)
Definition report (counts : JSMap.t * JSMap.t) : string :=
  let '(tagCounts, portProtocolCounts) := counts in
  let output := "" in
  let output := output +:+ ("Tag counts" +:+ String "010" "") in
  let output := appendCounts output tagCounts in
  let output :=
    output +:+ (String "010" "Dest. Port, Protocol counts" +:+ String "010" "") in
  appendCounts output portProtocolCounts.

(** [s] without one leading sign character. *)
Definition stripSign (s : string) : string :=
  match s with
  | String c r => if bool_decide (c = "-"%char \/ c = "+"%char) then r else s
  | EmptyString => EmptyString
  end.

(** [acc[parsed.key] = parsed.value] *)
Definition storeEntry (acc : LookupTable) (parsed : LookupEntry) : LookupTable :=
  setProperty acc (key parsed) (value parsed).

(** One line of the report. *)
Definition reportLine (entry : string * nat) : string :=
  entry.1 +:+ "=" +:+ decimal entry.2.

(** The distinct keys of a list in the order of their first occurrence. *)
Fixpoint firstOccurrences (keys : list string) : list string :=
  match keys with
  | [] => []
  | k :: rest => k :: filter (fun k' => k' <> k) (firstOccurrences rest)
  end.

Module CLI.

(** [processedArgs]; a value is [undefined] when a flag is the last
    argument. *)
Record ProcessedArgs := {
  logfile : option string;
  lookup : option string;
  output : option string
}.

(** What running a piece of the program ends in: [process.exit(code)], or
    a value handed on. *)
Inductive Outcome (A : Type) :=
| Exit (code : nat)
| Done (a : A).
Arguments Exit {A} code.
Arguments Done {A} a.

Definition defaults : ProcessedArgs :=
  {| logfile := Some "example.log"; lookup := Some "example.csv";
     output := Some "processed.txt" |}.

(** The [for] loop of [parseArgs] over [process.argv], from the argument
    [arg] at the head of the list on; [process.argv[i + 1]] is the head of
    what follows. *)
Fixpoint scanArgs (argv : list string) (processedArgs : ProcessedArgs)
  : Outcome ProcessedArgs :=
  match argv with
  | [] => Done processedArgs
  | arg :: rest =>
      if bool_decide (arg = "--logfile") then
        scanArgs rest {| logfile := head rest; lookup := lookup processedArgs;
                         output := output processedArgs |}
      else if bool_decide (arg = "--lookup-file") then
        scanArgs rest {| logfile := logfile processedArgs; lookup := head rest;
                         output := output processedArgs |}
      else if bool_decide (arg = "--output-file") then
        scanArgs rest {| logfile := logfile processedArgs;
                         lookup := lookup processedArgs; output := head rest |}
      else if bool_decide (arg = "--help") then Exit 0
      else scanArgs rest processedArgs
  end.

Section Files.

(** [fs.lstat(path.join(process.cwd(), name))] as a function of [name]:
    [None] when the promise rejects (no such file), [Some b] when it
    resolves to stats whose [isFile()] is [b]. *)
Variable lstat : string -> option bool.

(** [path.join] throws on [undefined], inside the [try]. *)
Definition lstatArg (name : option string) : option bool := name ≫= lstat.

(** The [try] block of [parseArgs]: [None] is [null]. *)
Definition validateArgs (processedArgs : ProcessedArgs) : option ProcessedArgs :=
  match lstatArg (logfile processedArgs), lstatArg (lookup processedArgs),
        lstatArg (output processedArgs) with
  | Some logfileIsValid, Some lookupIsValid, Some outputIsValid =>
      if negb logfileIsValid then None
      else if negb lookupIsValid then None
      else if negb outputIsValid then None
      else Some processedArgs
  | _, _, _ => None
  end.

Definition parseArgs (argv : list string) : Outcome (option ProcessedArgs) :=
  match scanArgs argv defaults with
  | Exit code => Exit code
  | Done processedArgs => Done (validateArgs processedArgs)
  end.

(** The start of [main]: [if (parsedArgs === null) process.exit(1)]. *)
Definition checkedArgs (argv : list string) : Outcome ProcessedArgs :=
  match parseArgs argv with
  | Exit code => Exit code
  | Done None => Exit 1
  | Done (Some parsedArgs) => Done parsedArgs
  end.

End Files.

(** The value of a flag: what follows its last occurrence, or the default
    when it does not occur. *)
Fixpoint flagValue (flag : string) (argv : list string) (default : option string)
  : option string :=
  match argv with
  | [] => default
  | arg :: rest =>
      flagValue flag rest (if bool_decide (arg = flag) then head rest else default)
  end.

(** A file system in which exactly the three default files are regular
    files and "dir" is a directory. *)
Definition sample_lstat (name : string) : option bool :=
  if bool_decide (name = "example.log") then Some true
  else if bool_decide (name = "example.csv") then Some true
  else if bool_decide (name = "processed.txt") then Some true
  else if bool_decide (name = "dir") then Some false
  else None.

End CLI.
(** ** Examples *)

Example trim_ex : JS.trim (String "009" "  a b " +:+ String "013" "") = "a b".
Proof. reflexivity. Qed.

Example split_ex : JS.split " "%char "a  b" = ["a"; ""; "b"].
Proof. reflexivity. Qed.

Example split_empty_ex : JS.split ","%char "" = [""].
Proof. reflexivity. Qed.

Example toLowerCase_ex : JS.toLowerCase "80,TcP" = "80,tcp".
Proof. reflexivity. Qed.

Example parseInt_ex :
  JS.parseInt "6" = Some 6%Z /\ JS.parseInt "6abc" = Some 6%Z /\
  JS.parseInt " -17x" = Some (-17)%Z /\ JS.parseInt "tcp" = None /\
  JS.parseInt "" = None /\ JS.parseInt "0x10" = Some 0%Z.
Proof. repeat split; reflexivity. Qed.

Example handleFields_ex :
  handleFields iana_sample "protocol" "6" = "TCP" /\
  handleFields iana_sample "protocol" "99" = "99" /\
  handleFields iana_sample "protocol" "tcp" = "tcp" /\
  handleFields iana_sample "dstport" "6" = "6".
Proof. repeat split; reflexivity. Qed.

Example parseLine_ex :
  (parseLineFromLog iana_sample sample_line AVAILABLE_FIELDS_DEFAULT
     ≫= fun r => r !! "protocol") = Some "TCP".
Proof. vm_compute. reflexivity. Qed.

(** A lookup line that spells the protocol as a number is keyed "80,6"; a
    record whose protocol 6 was translated is keyed "80,tcp". *)
Example numeric_protocol_in_lookup_ex :
  main iana_sample ("80,6,web" +:+ String "010" "23,6,ssh")
       (sample_line +:+ String "010" sample_line)
  = ([("untagged", 2)], [("80,tcp", 2)]).
Proof. vm_compute. reflexivity. Qed.

Example main_ex :
  main iana_sample ("80,TCP,web" +:+ String "010" "23,tcp,ssh")
       (sample_line +:+ String "010" sample_line +:+ String "010" "bad line")
  = ([("untagged", 0); ("web", 2)], [("80,tcp", 2)]).
Proof. vm_compute. reflexivity. Qed.

(** ** Facts about the string primitives *)

Lemma append_nil_l (t : string) : "" +:+ t = t.
Proof. reflexivity. Qed.

Lemma append_cons (c : ascii) (s t : string) : String c s +:+ t = String c (s +:+ t).
Proof. reflexivity. Qed.

Lemma append_nil_r (s : string) : s +:+ "" = s.
Proof. induction s as [|c s IH]; [done|]. by rewrite append_cons, IH. Qed.

Lemma append_assoc (s t u : string) : (s +:+ t) +:+ u = s +:+ t +:+ u.
Proof. induction s as [|c s IH]; [done|]. by rewrite !append_cons, IH. Qed.

Lemma split_nonempty sep s : JS.split sep s <> [].
Proof.
  destruct s as [|c s]; simpl; [done|].
  destruct (Ascii.eqb c sep); [done|]. by destruct (JS.split sep s).
Qed.

Lemma split_no_sep sep x : allChars (notChar sep) x = true -> JS.split sep x = [x].
Proof.
  induction x as [|c x IH]; simpl; [done|].
  intros [Hc Hx]%andb_prop. unfold notChar in Hc.
  destruct (Ascii.eqb c sep); [done|]. by rewrite IH.
Qed.

Lemma split_app_sep sep x s :
  allChars (notChar sep) x = true ->
  JS.split sep (x +:+ String sep s) = x :: JS.split sep s.
Proof.
  induction x as [|c x IH]; intros Hx.
  - rewrite append_nil_l. simpl. by rewrite Ascii.eqb_refl.
  - simpl in Hx. apply andb_prop in Hx as [Hc Hx]. unfold notChar in Hc.
    rewrite append_cons. simpl. destruct (Ascii.eqb c sep); [done|].
    by rewrite IH.
Qed.

Lemma split_join sep (l : list string) :
  l <> [] -> Forall (fun f => allChars (notChar sep) f = true) l ->
  JS.split sep (join sep l) = l.
Proof.
  induction l as [|x l IH]; [done|]. intros _ Hall.
  apply Forall_cons in Hall as [Hx Hl].
  destruct l as [|y l].
  - simpl. by apply split_no_sep.
  - change (join sep (x :: y :: l)) with (x +:+ String sep (join sep (y :: l))).
    rewrite split_app_sep by done. f_equal. by apply IH.
Qed.

Lemma trimStart_ws_app lead s :
  allChars JS.isWhiteSpace lead = true -> JS.trimStart (lead +:+ s) = JS.trimStart s.
Proof.
  induction lead as [|c lead IH]; [done|]. simpl.
  intros [Hc Hl]%andb_prop. rewrite Hc. by apply IH.
Qed.

Lemma trimStart_id c s : JS.isWhiteSpace c = false -> JS.trimStart (String c s) = String c s.
Proof. intros H. simpl. by rewrite H. Qed.

Lemma trimEnd_ws trail : allChars JS.isWhiteSpace trail = true -> JS.trimEnd trail = "".
Proof.
  induction trail as [|c t IH]; [done|]. simpl.
  intros [Hc Ht]%andb_prop. by rewrite IH, Hc.
Qed.

Lemma trimEnd_app_ws s trail :
  allChars JS.isWhiteSpace trail = true -> JS.trimEnd (s +:+ trail) = JS.trimEnd s.
Proof.
  intros Ht. induction s as [|c s IH].
  - rewrite append_nil_l. by apply trimEnd_ws.
  - rewrite append_cons. simpl. by rewrite IH.
Qed.

Lemma trimEnd_app_fixed s t :
  t <> "" -> JS.trimEnd t = t -> JS.trimEnd (s +:+ t) = s +:+ t.
Proof.
  intros Hne Ht. induction s as [|c s IH]; [done|].
  rewrite append_cons. simpl. rewrite IH.
  destruct (s +:+ t) eqn:E; [|done].
  by destruct s, t.
Qed.

Lemma trimEnd_field f :
  allChars notWhiteSpace f = true -> JS.trimEnd f = f.
Proof.
  induction f as [|c f IH]; [done|]. simpl.
  intros [Hc Hf]%andb_prop. rewrite IH by done.
  unfold notWhiteSpace in Hc. destruct f; [|done].
  by destruct (JS.isWhiteSpace c).
Qed.

Lemma join_fields_nonempty sep (l : list string) :
  l <> [] -> Forall isField l -> join sep l <> "".
Proof.
  destruct l as [|x l]; [done|]. intros _ [[Hx _] _]%Forall_cons.
  destruct l; simpl; [done|]. by destruct x.
Qed.

Lemma trimEnd_join_fields sep (l : list string) :
  Forall isField l -> JS.trimEnd (join sep l) = join sep l.
Proof.
  induction l as [|x l IH]; [done|]. intros [[Hx Hx'] Hl]%Forall_cons.
  destruct l as [|y l]; [by apply trimEnd_field|].
  change (join sep (x :: y :: l)) with (x +:+ String sep "" +:+ join sep (y :: l)).
  rewrite <- append_assoc. apply trimEnd_app_fixed; [|by apply IH].
  by apply join_fields_nonempty.
Qed.

Lemma trimStart_join_fields sep (l : list string) s :
  l <> [] -> Forall isField l ->
  JS.trimStart (join sep l +:+ s) = join sep l +:+ s.
Proof.
  destruct l as [|x l]; [done|]. intros _ [[Hx Hx'] _]%Forall_cons.
  destruct x as [|c x]; [done|]. simpl in Hx'.
  apply andb_prop in Hx' as [Hc _]. unfold notWhiteSpace in Hc.
  assert (exists r, join sep (String c x :: l) +:+ s = String c r) as [r ->].
  { destruct l; simpl; rewrite ?append_cons; eauto. }
  apply trimStart_id. by destruct (JS.isWhiteSpace c).
Qed.

(** A line of fields joined by [sep], with white space around it, trims to
    the joined fields. *)
Lemma trim_padded_join sep (l : list string) lead trail :
  l <> [] -> Forall isField l ->
  allChars JS.isWhiteSpace lead = true -> allChars JS.isWhiteSpace trail = true ->
  JS.trim (lead +:+ join sep l +:+ trail) = join sep l.
Proof.
  intros Hne Hl Hlead Htrail. unfold JS.trim.
  rewrite trimStart_ws_app by done.
  rewrite trimStart_join_fields by done.
  rewrite trimEnd_app_ws by done.
  by apply trimEnd_join_fields.
Qed.

Lemma field_no_space f : isField f -> allChars (notChar " ") f = true.
Proof.
  intros [_ H]. induction f as [|c f IH]; [done|]. simpl in *.
  apply andb_prop in H as [Hc Hf]. rewrite IH by done.
  rewrite andb_true_r. unfold notWhiteSpace, notChar in *.
  destruct (Ascii.eqb_spec c " ") as [->|]; done.
Qed.

(** ** Flow record parser: tokens of a line *)

Example spec_tokens_ex :
  spec_tokens sample_line = sample_fields /\
  spec_tokens double_spaced_line = sample_fields /\
  spec_tokens tabbed_line = sample_fields.
Proof. repeat split; reflexivity. Qed.

Section ParserFacts.

Variable protocol_numbers : Z -> option ProtocolNumber.

(** C1, as stated, fails: a line of 14 fields, two consecutive spaces after
    the first one, is split by [split(" ")] into 15 tokens (one of them
    empty), and [parseLineFromLog] skips the line. *)
Lemma double_spaced_line_skipped :
  spec_tokens double_spaced_line = sample_fields /\
  length sample_fields = 14 /\
  length (JS.split " " (JS.trim double_spaced_line)) = 15 /\
  parseLineFromLog iana_sample double_spaced_line AVAILABLE_FIELDS_DEFAULT = None.
Proof. repeat split; reflexivity. Qed.

(** C1 (amended): a line whose 14 fields (nonempty, free of white space)
    are separated by exactly one space character each, with any white
    space before the first and after the last field, is split by the
    parser into exactly these 14 tokens, and a FlowRecord is produced. *)
Theorem single_spaced_line_parsed (fields : list string) (lead trail : string) :
  length fields = 14 ->
  Forall isField fields ->
  allChars JS.isWhiteSpace lead = true ->
  allChars JS.isWhiteSpace trail = true ->
  JS.split " " (JS.trim (lead +:+ join " " fields +:+ trail)) = fields /\
  exists r, parseLineFromLog protocol_numbers (lead +:+ join " " fields +:+ trail)
              AVAILABLE_FIELDS_DEFAULT = Some r.
Proof.
  intros Hlen Hfields Hlead Htrail.
  assert (fields <> []) as Hne by (by destruct fields).
  assert (JS.split " " (JS.trim (lead +:+ join " " fields +:+ trail)) = fields) as Htok.
  { rewrite trim_padded_join by done. apply split_join; [done|].
    eapply Forall_impl; [exact Hfields|]. apply field_no_space. }
  split; [exact Htok|].
  unfold parseLineFromLog. rewrite Htok, Hlen. simpl. eauto.
Qed.

(** *** Field values of a parsed line *)

Lemma reduceFields_lookup_other format (l : list string) idx
    (acc : FlowRecord) k :
  (forall i, idx <= i < idx + length l -> JS.ToString (format !! i) <> k) ->
  reduceFields protocol_numbers format l idx acc !! k = acc !! k.
Proof.
  revert idx acc. induction l as [|tok l IH]; intros idx acc Hk; [done|].
  simpl in *. rewrite IH by (intros i Hi; apply Hk; lia).
  apply lookup_insert_ne, Hk. lia.
Qed.

Lemma reduceFields_lookup format (l : list string) idx
    (acc : FlowRecord) i field tok :
  NoDup format -> idx + length l <= length format ->
  format !! (idx + i) = Some field -> l !! i = Some tok ->
  reduceFields protocol_numbers format l idx acc !! field
  = Some (handleFields protocol_numbers field tok).
Proof.
  intros Hnd. revert idx acc i.
  induction l as [|tok0 l IH]; intros idx acc i Hlen Hf Ht; [done|].
  simpl in Hlen. destruct i as [|i]; simpl in Ht.
  - injection Ht as ->. rewrite Nat.add_0_r in Hf. simpl. rewrite Hf. simpl.
    rewrite reduceFields_lookup_other; [apply lookup_insert_eq|].
    intros j Hj. destruct (format !! j) as [f|] eqn:Ej.
    + simpl. intros ->. pose proof (NoDup_lookup _ _ _ _ Hnd Hf Ej). lia.
    + apply lookup_ge_None in Ej. lia.
  - simpl. apply (IH (S idx) _ i); [lia| |done].
    by replace (S idx + i) with (idx + S i) by lia.
Qed.

Lemma handleFields_other key value :
  key <> "protocol" -> handleFields protocol_numbers key value = value.
Proof. intros H. unfold handleFields. by rewrite bool_decide_eq_false_2. Qed.

Lemma handleFields_protocol value :
  handleFields protocol_numbers "protocol" value
  = match JS.parseInt value ≫= protocol_numbers with
    | Some entry => name entry
    | None => value
    end.
Proof.
  unfold handleFields, protocolName. simpl.
  by destruct (JS.parseInt value ≫= protocol_numbers).
Qed.

Lemma AVAILABLE_FIELDS_DEFAULT_NoDup : NoDup AVAILABLE_FIELDS_DEFAULT.
Proof. apply (bool_decide_unpack (NoDup AVAILABLE_FIELDS_DEFAULT)). vm_compute. exact I. Qed.

Lemma parseLineFromLog_field line i field tok :
  length (JS.split " " (JS.trim line)) = length AVAILABLE_FIELDS_DEFAULT ->
  AVAILABLE_FIELDS_DEFAULT !! i = Some field ->
  JS.split " " (JS.trim line) !! i = Some tok ->
  exists r,
    parseLineFromLog protocol_numbers line AVAILABLE_FIELDS_DEFAULT = Some r /\
    r !! field = Some (handleFields protocol_numbers field tok).
Proof.
  intros Hlen Hf Ht. unfold parseLineFromLog. rewrite Hlen, Nat.eqb_refl.
  eexists; split; [reflexivity|].
  apply (reduceFields_lookup _ _ 0 _ i field tok);
    [apply AVAILABLE_FIELDS_DEFAULT_NoDup | lia | done | done].
Qed.

(** C2, as stated, fails: lines whose white-space-separated tokens number
    14 (tabs between the fields; two spaces before the protocol field) are
    skipped, no FlowRecord is produced. *)
Lemma whitespace_split_14_no_record :
  length (spec_tokens tabbed_line) = length AVAILABLE_FIELDS_DEFAULT /\
  parseLineFromLog iana_sample tabbed_line AVAILABLE_FIELDS_DEFAULT = None /\
  length (spec_tokens double_spaced_protocol_line) = length AVAILABLE_FIELDS_DEFAULT /\
  parseLineFromLog iana_sample double_spaced_protocol_line AVAILABLE_FIELDS_DEFAULT = None.
Proof. repeat split; reflexivity. Qed.

(** C2 (amended): for every log line whose trimmed text, split at each
    single space character, has exactly as many tokens as the 14-entry
    field list, the parser produces a FlowRecord with exactly the 14
    fields; every field other than [protocol] holds the token at its
    position, and [protocol] holds the canonical name when the table has
    an entry for the integer parsed from its token, the raw token
    otherwise. *)
Theorem parsed_record_matches_tokens (line : string) :
  length (JS.split " " (JS.trim line)) = length AVAILABLE_FIELDS_DEFAULT ->
  exists r,
    parseLineFromLog protocol_numbers line AVAILABLE_FIELDS_DEFAULT = Some r /\
    (forall i field tok,
        AVAILABLE_FIELDS_DEFAULT !! i = Some field ->
        JS.split " " (JS.trim line) !! i = Some tok ->
        field <> "protocol" -> r !! field = Some tok) /\
    (forall tok,
        JS.split " " (JS.trim line) !! 7 = Some tok ->
        r !! "protocol" = Some (match JS.parseInt tok ≫= protocol_numbers with
                                | Some entry => name entry
                                | None => tok
                                end)) /\
    (forall k, k ∉ AVAILABLE_FIELDS_DEFAULT -> r !! k = None).
Proof.
  intros Hlen. unfold parseLineFromLog. rewrite Hlen, Nat.eqb_refl. simpl negb.
  cbv iota. eexists; split; [reflexivity|]. split; [|split].
  - intros i field tok Hf Ht Hne.
    rewrite (reduceFields_lookup _ _ 0 _ i field tok);
      [by rewrite handleFields_other
      |apply AVAILABLE_FIELDS_DEFAULT_NoDup | lia | done | done].
  - intros tok Ht.
    rewrite (reduceFields_lookup _ _ 0 _ 7 "protocol" tok);
      [by rewrite handleFields_protocol
      |apply AVAILABLE_FIELDS_DEFAULT_NoDup | lia | done | done].
  - intros k Hk. rewrite reduceFields_lookup_other; [done|].
    intros i Hi. destruct (AVAILABLE_FIELDS_DEFAULT !! i) as [f|] eqn:Ef.
    + simpl. intros ->. apply Hk. by eapply list_elem_of_lookup_2.
    + apply lookup_ge_None in Ef. lia.
Qed.

(** C6: translating the protocol field is a total function to strings:
    the TypeError of reading [.name] on a missing entry is caught, the
    result is the canonical name when [parseInt] yields an integer that
    has a table entry, and the input itself when [parseInt] yields NaN or
    the integer has no entry. *)
Theorem handleFields_never_fails (value : string) :
  exists result : string,
    handleFields protocol_numbers "protocol" value = result /\
    match JS.parseInt value with
    | Some IANAInt =>
        match protocol_numbers IANAInt with
        | Some entry =>
            protocolName protocol_numbers (Some IANAInt) = Normal (name entry) /\
            result = name entry
        | None =>
            protocolName protocol_numbers (Some IANAInt) = Throw TypeError /\
            result = value
        end
    | None =>
        protocolName protocol_numbers None = Throw TypeError /\ result = value
    end.
Proof.
  eexists; split; [reflexivity|].
  rewrite handleFields_protocol. unfold protocolName.
  destruct (JS.parseInt value) as [z|]; simpl; [|done].
  by destruct (protocol_numbers z).
Qed.

(** *** [parseInt] on a decimal number followed by other characters *)

Lemma digitPrefix_decimal u rest :
  startsWithDigit rest = false ->
  JS.digitPrefix (DecimalString.NilEmpty.string_of_uint u +:+ rest)
  = DecimalString.NilEmpty.string_of_uint u.
Proof.
  intros Hrest. induction u; simpl; rewrite ?IHu; try done.
  destruct rest as [|c rest]; [done|]. simpl in *. by rewrite Hrest.
Qed.

Lemma mathInt_decimal u acc :
  JS.mathInt (DecimalString.NilEmpty.string_of_uint u) (Z.of_nat acc)
  = Z.of_nat (Nat.of_uint_acc u acc).
Proof.
  revert acc. induction u; intros acc; simpl; [done|..].
  all: rewrite <- IHu, Nat.tail_mul_spec; f_equal; lia.
Qed.

Lemma to_uint_nonnil n : Nat.to_uint n <> Decimal.Nil.
Proof.
  intros E. pose proof (DecimalNat.Unsigned.of_to n) as Hn.
  rewrite E in Hn. by subst n.
Qed.

Lemma parseInt_decimal n rest :
  startsWithDigit rest = false ->
  JS.parseInt (decimal n +:+ rest) = Some (Z.of_nat n).
Proof.
  intros Hrest. unfold JS.parseInt, decimal.
  pose proof (to_uint_nonnil n) as Hnil.
  pose proof (DecimalNat.Unsigned.of_to n) as Hn.
  pose proof (mathInt_decimal (Nat.to_uint n) 0) as Hm.
  pose proof (digitPrefix_decimal (Nat.to_uint n) rest Hrest) as Hd.
  unfold Nat.of_uint in Hn. rewrite Hn in Hm. clear Hn.
  destruct (Nat.to_uint n) as [|u|u|u|u|u|u|u|u|u|u]; [done|..].
  all: simpl in *; injection Hd as ->; simpl; f_equal;
    change (Z.of_nat 0) with 0%Z in Hm; rewrite Hm; lia.
Qed.

(** C10: a protocol token made of the decimal digits of a number that has
    a table entry, followed by anything that does not start with a digit,
    is translated to the entry's canonical name, because [parseInt] reads
    the numeric prefix; the record of a line with such a protocol token
    holds the canonical name, not the token. *)
Theorem numeric_prefix_translated (n : nat) (entry : ProtocolNumber) (rest : string) :
  protocol_numbers (Z.of_nat n) = Some entry ->
  startsWithDigit rest = false ->
  JS.parseInt (decimal n +:+ rest) = Some (Z.of_nat n) /\
  handleFields protocol_numbers "protocol" (decimal n +:+ rest) = name entry /\
  forall line,
    length (JS.split " " (JS.trim line)) = length AVAILABLE_FIELDS_DEFAULT ->
    JS.split " " (JS.trim line) !! 7 = Some (decimal n +:+ rest) ->
    exists r,
      parseLineFromLog protocol_numbers line AVAILABLE_FIELDS_DEFAULT = Some r /\
      r !! "protocol" = Some (name entry).
Proof.
  intros Hentry Hrest.
  assert (handleFields protocol_numbers "protocol" (decimal n +:+ rest) = name entry)
    as Hname.
  { rewrite handleFields_protocol, parseInt_decimal by done. simpl.
    by rewrite Hentry. }
  split; [by apply parseInt_decimal|]. split; [exact Hname|].
  intros line Hlen Htok.
  destruct (parseLineFromLog_field line 7 "protocol" _ Hlen eq_refl Htok)
    as (r & Hr & Hp).
  exists r. split; [exact Hr|]. by rewrite Hp, Hname.
Qed.

End ParserFacts.

(** ** Lookup table builder *)

Lemma split_inv sep s :
  s = join sep (JS.split sep s) /\
  Forall (fun f => allChars (notChar sep) f = true) (JS.split sep s).
Proof.
  induction s as [|c s [IH1 IH2]]; [by repeat constructor|]. simpl.
  destruct (Ascii.eqb_spec c sep) as [->|Hne].
  - pose proof (split_nonempty sep s).
    split; [|by constructor].
    destruct (JS.split sep s) eqn:E; [done|]. simpl in *. by rewrite <- IH1.
  - destruct (JS.split sep s) as [|t ts] eqn:E; [by destruct (split_nonempty sep s)|].
    apply Forall_cons in IH2 as [Ht Hts]. split.
    + rewrite IH1 at 1. by destruct ts.
    + constructor; [|done]. simpl. rewrite Ht. unfold notChar.
      by destruct (Ascii.eqb_spec c sep).
Qed.

Lemma trimStart_app_stop a c s :
  JS.isWhiteSpace c = false ->
  JS.trimStart (a +:+ String c s) = JS.trimStart a +:+ String c s.
Proof.
  intros Hc. induction a as [|d a IH]; simpl; [by rewrite Hc|].
  by destruct (JS.isWhiteSpace d).
Qed.

Lemma trimEnd_app_stop s c t :
  JS.isWhiteSpace c = false ->
  JS.trimEnd (s +:+ String c t) = s +:+ String c (JS.trimEnd t).
Proof.
  intros Hc.
  assert (JS.trimEnd (String c t) = String c (JS.trimEnd t)) as Hct.
  { simpl. destruct (JS.trimEnd t); [by rewrite Hc|done]. }
  induction s as [|d s IH]; [done|].
  simpl. rewrite IH. by destruct s.
Qed.

Lemma allChars_trimStart p a : allChars p a = true -> allChars p (JS.trimStart a) = true.
Proof.
  induction a as [|c a IH]; [done|]. simpl.
  intros H. destruct (JS.isWhiteSpace c); [|done].
  apply andb_prop in H as [_ H]. by apply IH.
Qed.

Lemma allChars_trimEnd p a : allChars p a = true -> allChars p (JS.trimEnd a) = true.
Proof.
  induction a as [|c a IH]; [done|]. simpl.
  intros [Hc Ha]%andb_prop. specialize (IH Ha).
  destruct (JS.trimEnd a); [|by simpl in *; rewrite Hc].
  destruct (JS.isWhiteSpace c); [done|]. simpl. by rewrite Hc.
Qed.

(** The tokens of a trimmed 3-token line: trimming strips the front of the
    first token and the back of the last. *)
Lemma split_trim_3 line a b c :
  JS.split "," line = [a; b; c] ->
  JS.split "," (JS.trim line) = [JS.trimStart a; b; JS.trimEnd c].
Proof.
  intros Hsplit. destruct (split_inv "," line) as [Hline Hall].
  rewrite Hsplit in Hline, Hall. simpl in Hline.
  apply Forall_cons in Hall as [Ha Hall]. apply Forall_cons in Hall as [Hb Hall].
  apply Forall_cons in Hall as [Hc _].
  subst line. unfold JS.trim. rewrite trimStart_app_stop by done.
  replace (JS.trimStart a +:+ String "," (b +:+ String "," c))
    with ((JS.trimStart a +:+ String "," b) +:+ String "," c)
    by (by rewrite append_assoc).
  rewrite trimEnd_app_stop by done.
  rewrite append_assoc. change (String "," b +:+ String "," (JS.trimEnd c))
    with (String "," (b +:+ String "," (JS.trimEnd c))).
  rewrite split_app_sep by by apply allChars_trimStart.
  rewrite split_app_sep by done.
  by rewrite split_no_sep by by apply allChars_trimEnd.
Qed.

Lemma split_length sep s : length (JS.split sep s) = S (countChar sep s).
Proof.
  induction s as [|c s IH]; [done|]. simpl.
  destruct (Ascii.eqb c sep); simpl; [by rewrite IH|].
  destruct (JS.split sep s); simpl in *; [done|]. lia.
Qed.

Lemma countChar_trimStart sep s :
  JS.isWhiteSpace sep = false -> countChar sep (JS.trimStart s) = countChar sep s.
Proof.
  intros Hsep. induction s as [|c s IH]; [done|]. simpl.
  destruct (JS.isWhiteSpace c) eqn:Hc; [|done].
  destruct (Ascii.eqb_spec c sep) as [->|]; [congruence|done].
Qed.

Lemma countChar_trimEnd sep s :
  JS.isWhiteSpace sep = false -> countChar sep (JS.trimEnd s) = countChar sep s.
Proof.
  intros Hsep. induction s as [|c s IH]; [done|]. simpl.
  destruct (JS.trimEnd s) eqn:E.
  - destruct (JS.isWhiteSpace c) eqn:Hc; simpl in *; [|lia].
    destruct (Ascii.eqb_spec c sep) as [->|]; [congruence|]. lia.
  - simpl in *. lia.
Qed.

Lemma split_trim_length sep s :
  JS.isWhiteSpace sep = false ->
  length (JS.split sep (JS.trim s)) = length (JS.split sep s).
Proof.
  intros Hsep. rewrite !split_length. unfold JS.trim.
  by rewrite countChar_trimEnd, countChar_trimStart.
Qed.

Lemma parseCSVLine_accepts line a b c :
  JS.split "," (JS.trim line) = [a; b; c] -> a <> "" -> b <> "" -> c <> "" ->
  parseCSVLine line LOOKUP_DEFAULT_FORMAT
  = Some {| key := JS.toLowerCase (a +:+ "," +:+ b); value := Some c |}.
Proof.
  intros Hsplit Ha Hb Hc. unfold parseCSVLine. rewrite Hsplit. simpl.
  rewrite bool_decide_eq_false_2; [done|].
  by intros [[= ->]|[[= ->]|[= ->]]].
Qed.

Lemma parseCSVLine_rejects line :
  violatesFormat (JS.split "," (JS.trim line)) ->
  parseCSVLine line LOOKUP_DEFAULT_FORMAT = None.
Proof.
  intros [Hlen|Hin]; unfold parseCSVLine.
  - destruct (Nat.eqb_spec (length (JS.split "," (JS.trim line)))
                (length LOOKUP_DEFAULT_FORMAT)) as [E|]; [done|done].
  - destruct (Nat.eqb_spec (length (JS.split "," (JS.trim line)))
                (length LOOKUP_DEFAULT_FORMAT)) as [E|]; [|done]. simpl.
    rewrite bool_decide_eq_true_2; [done|].
    destruct (JS.split "," (JS.trim line)) as [|a [|b [|c [|d l]]]]; try done.
    rewrite !elem_of_cons in Hin. rewrite elem_of_nil in Hin. simpl.
    destruct Hin as [<-|[<-|[<-|[]]]]; auto.
Qed.

Lemma violatesFormat_trim line :
  violatesFormat (JS.split "," line) -> violatesFormat (JS.split "," (JS.trim line)).
Proof.
  intros [Hlen|Hin].
  - left. by rewrite split_trim_length.
  - destruct (decide (length (JS.split "," line) = 3)) as [E|];
      [|left; by rewrite split_trim_length].
    right. destruct (JS.split "," line) as [|a [|b [|c [|d l]]]] eqn:Hs; try done.
    rewrite (split_trim_3 _ _ _ _ Hs).
    assert (a = "" \/ b = "" \/ c = "") as [-> | [-> | ->]].
    { rewrite !elem_of_cons in Hin. rewrite elem_of_nil in Hin.
      destruct Hin as [<-|[<-|[<-|[]]]]; auto. }
    all: rewrite !elem_of_cons; auto.
Qed.

Lemma parseCSVLine_value line e :
  parseCSVLine line LOOKUP_DEFAULT_FORMAT = Some e -> is_Some (value e).
Proof.
  unfold parseCSVLine.
  destruct (Nat.eqb_spec (length (JS.split "," (JS.trim line)))
              (length LOOKUP_DEFAULT_FORMAT)) as [E|]; [|done]. simpl.
  case_bool_decide; [done|]. intros [= <-]. simpl.
  apply lookup_lt_is_Some. rewrite E. simpl. lia.
Qed.

Lemma setProperty_lookup (acc : LookupTable) k v :
  setProperty acc k v !! k = v.
Proof. destruct v; simpl; [apply lookup_insert_eq|apply lookup_delete_eq]. Qed.

Lemma setProperty_lookup_ne (acc : LookupTable) k k' v :
  k <> k' -> setProperty acc k v !! k' = acc !! k'.
Proof. intros H. destruct v; simpl; [by apply lookup_insert_ne|by apply lookup_delete_ne]. Qed.

Lemma addLookupLine_accepted acc line e :
  parseCSVLine line LOOKUP_DEFAULT_FORMAT = Some e ->
  addLookupLine acc line !! key e = value e.
Proof. intros H. unfold addLookupLine. rewrite H. apply setProperty_lookup. Qed.

Lemma foldl_addLookupLine_other acc post k :
  noLineWithKey k post -> foldl addLookupLine acc post !! k = acc !! k.
Proof.
  intros Hpost. revert acc. induction Hpost as [|l post Hl _ IH]; intros acc; [done|].
  simpl. rewrite IH. unfold addLookupLine.
  destruct (parseCSVLine l LOOKUP_DEFAULT_FORMAT) as [e|] eqn:E; [|done].
  apply setProperty_lookup_ne. by apply Hl.
Qed.

(** The entry of the last accepted line with a given key is the one the
    table holds. *)
Lemma foldl_addLookupLine_last acc pre line post e :
  parseCSVLine line LOOKUP_DEFAULT_FORMAT = Some e ->
  noLineWithKey (key e) post ->
  foldl addLookupLine acc (pre ++ line :: post) !! key e = value e.
Proof.
  intros Hline Hpost. rewrite foldl_app. simpl.
  rewrite foldl_addLookupLine_other by done.
  by apply addLookupLine_accepted.
Qed.

Lemma foldl_addLookupLine_is_Some acc lines k :
  is_Some (acc !! k) -> is_Some (foldl addLookupLine acc lines !! k).
Proof.
  revert acc. induction lines as [|l lines IH]; intros acc Hacc; [done|].
  simpl. apply IH. unfold addLookupLine.
  destruct (parseCSVLine l LOOKUP_DEFAULT_FORMAT) as [e|] eqn:E; [|done].
  destruct (parseCSVLine_value _ _ E) as [v Hv]. rewrite Hv. simpl.
  destruct (decide (key e = k)) as [->|];
    [by rewrite lookup_insert_eq | by rewrite lookup_insert_ne].
Qed.

(** C7, as stated, fails.  With Windows line ends the first line of
    [crlf_csv] splits on commas into 3 nonempty tokens, the third ending in
    a carriage return, but the table stores the tag without it: the line is
    trimmed before it is split.  And in [duplicate_csv] the first line's tag
    is not in the built table: the second line has the same key. *)
Lemma raw_tokens_not_stored :
  (exists line rest, JS.split "010" (JS.trim crlf_csv) = line :: rest /\
     JS.split "," line = ["80"; "tcp"; String "w" (String "e" (String "b" (String "013" "")))] /\
     buildLookupTable crlf_csv !! "80,tcp" = Some "web") /\
  (exists line rest, JS.split "010" (JS.trim duplicate_csv) = line :: rest /\
     JS.split "," line = ["80"; "tcp"; "web"] /\
     buildLookupTable duplicate_csv !! "80,tcp" = Some "other").
Proof. split; eexists _, _; repeat split; vm_compute; reflexivity. Qed.

(** C7 (amended): for every line of the CSV buffer whose text, trimmed of
    surrounding white space, splits on commas into exactly 3 tokens, none
    empty, processing the line stores under the lower-cased, comma-joined
    first two tokens the third token, unmodified; the built table has an
    entry for that key, and its value is this third token unless a later
    accepted line has the same key. *)
Theorem accepted_line_stored (csv : string) (pre post : list string) (line a b c : string) :
  JS.split "010" (JS.trim csv) = pre ++ line :: post ->
  JS.split "," (JS.trim line) = [a; b; c] ->
  a <> "" -> b <> "" -> c <> "" ->
  (forall acc, addLookupLine acc line !! JS.toLowerCase (a +:+ "," +:+ b) = Some c) /\
  is_Some (buildLookupTable csv !! JS.toLowerCase (a +:+ "," +:+ b)) /\
  (noLineWithKey (JS.toLowerCase (a +:+ "," +:+ b)) post ->
   buildLookupTable csv !! JS.toLowerCase (a +:+ "," +:+ b) = Some c).
Proof.
  intros Hlines Hsplit Ha Hb Hc.
  pose proof (parseCSVLine_accepts _ _ _ _ Hsplit Ha Hb Hc) as Hparse.
  split; [|split].
  - intros acc. exact (addLookupLine_accepted acc _ _ Hparse).
  - unfold buildLookupTable. rewrite Hlines, foldl_app. simpl.
    apply foldl_addLookupLine_is_Some.
    pose proof (addLookupLine_accepted (foldl addLookupLine ∅ pre) _ _ Hparse) as H.
    simpl in H. by rewrite H.
  - intros Hpost. unfold buildLookupTable. rewrite Hlines.
    exact (foldl_addLookupLine_last _ _ _ _ _ Hparse Hpost).
Qed.

(** C8: a line whose comma-separated tokens do not number 3, or one of
    whose tokens is empty (before or after the line is trimmed), is
    rejected: processing it returns the table it was given, so no entry is
    added and none is changed. *)
Theorem rejected_line_keeps_table (acc : LookupTable) (line : string) :
  violatesFormat (JS.split "," line) \/ violatesFormat (JS.split "," (JS.trim line)) ->
  parseCSVLine line LOOKUP_DEFAULT_FORMAT = None /\ addLookupLine acc line = acc.
Proof.
  intros Hbad.
  assert (parseCSVLine line LOOKUP_DEFAULT_FORMAT = None) as Hnone.
  { apply parseCSVLine_rejects. destruct Hbad; [by apply violatesFormat_trim|done]. }
  split; [done|]. unfold addLookupLine. by rewrite Hnone.
Qed.

(** C9: when two accepted lines of the buffer have the same normalized key
    and no accepted line after the second has it, the built table maps the
    key to the tag of the second: the last write wins. *)
Theorem last_write_wins (csv : string) (pre mid post : list string)
    (line1 line2 : string) (e1 e2 : LookupEntry) :
  JS.split "010" (JS.trim csv) = pre ++ line1 :: mid ++ line2 :: post ->
  parseCSVLine line1 LOOKUP_DEFAULT_FORMAT = Some e1 ->
  parseCSVLine line2 LOOKUP_DEFAULT_FORMAT = Some e2 ->
  key e1 = key e2 ->
  noLineWithKey (key e2) post ->
  buildLookupTable csv !! key e2 = value e2.
Proof.
  intros Hlines _ H2 _ Hpost. unfold buildLookupTable. rewrite Hlines.
  replace (pre ++ line1 :: mid ++ line2 :: post)
    with ((pre ++ line1 :: mid) ++ line2 :: post) by by rewrite <- app_assoc.
  by apply foldl_addLookupLine_last.
Qed.

(** ** Aggregator *)

Module JSMapFacts.

Lemma get_set_eq m k v : JSMap.get (JSMap.set m k v) k = Some v.
Proof.
  induction m as [|[k' v'] m IH]; simpl.
  - by rewrite decide_True.
  - destruct (decide (k' = k)) as [->|Hne]; simpl.
    + by rewrite decide_True.
    + by rewrite decide_False.
Qed.

Lemma get_set_ne m k k' v : k <> k' -> JSMap.get (JSMap.set m k v) k' = JSMap.get m k'.
Proof.
  intros Hne. induction m as [|[k0 v0] m IH]; simpl.
  - by rewrite decide_False.
  - destruct (decide (k0 = k)) as [->|Hne0]; simpl.
    + by rewrite !decide_False.
    + by rewrite IH.
Qed.

Lemma total_set m k v :
  JSMap.total (JSMap.set m k v) + JSMap.count m k = JSMap.total m + v.
Proof.
  unfold JSMap.count. induction m as [|[k0 v0] m IH]; simpl; [lia|].
  destruct (decide (k0 = k)) as [->|Hne0]; simpl; lia.
Qed.

Lemma count_set_eq m k v : JSMap.count (JSMap.set m k v) k = v.
Proof. unfold JSMap.count. by rewrite get_set_eq. Qed.

Lemma count_set_ne m k k' v :
  k <> k' -> JSMap.count (JSMap.set m k v) k' = JSMap.count m k'.
Proof. intros H. unfold JSMap.count. by rewrite get_set_ne. Qed.

Lemma missing_count m k : JSMap.missing m k = true -> JSMap.count m k = 0.
Proof.
  unfold JSMap.missing, JSMap.count. by destruct (JSMap.get m k) as [[|n]|].
Qed.

(** After [if (!m.get(k)) m.set(k, 0)] the key is present. *)
Lemma get_guarded m k :
  is_Some (JSMap.get (if JSMap.missing m k then JSMap.set m k 0 else m) k).
Proof.
  destruct (JSMap.missing m k) eqn:E; [by rewrite get_set_eq|].
  unfold JSMap.missing in E. by destruct (JSMap.get m k).
Qed.

(** *** [increment]: one entry goes up by one, the others stay *)

Lemma get_increment_eq m k :
  JSMap.get (increment m k) k = Some (JSMap.count m k + 1).
Proof.
  unfold increment. rewrite get_set_eq. f_equal. f_equal.
  destruct (JSMap.missing m k) eqn:E; [|done].
  by rewrite count_set_eq, missing_count.
Qed.

Lemma get_increment_ne m k k' :
  k <> k' -> JSMap.get (increment m k) k' = JSMap.get m k'.
Proof.
  intros Hne. unfold increment. rewrite get_set_ne by done.
  destruct (JSMap.missing m k); [by rewrite get_set_ne|done].
Qed.

Lemma count_increment m k k' :
  JSMap.count (increment m k) k'
  = JSMap.count m k' + (if bool_decide (k' = k) then 1 else 0).
Proof.
  unfold JSMap.count at 1. case_bool_decide as E.
  - subst k'. by rewrite get_increment_eq.
  - rewrite get_increment_ne by done. unfold JSMap.count. lia.
Qed.

Lemma total_increment m k : JSMap.total (increment m k) = JSMap.total m + 1.
Proof.
  unfold increment. destruct (JSMap.missing m k) eqn:E.
  - pose proof (total_set m k 0) as H0.
    pose proof (total_set (JSMap.set m k 0) k (JSMap.count (JSMap.set m k 0) k + 1)) as H1.
    rewrite count_set_eq in H1 |- *. rewrite missing_count in H0 by done. lia.
  - pose proof (total_set m k (JSMap.count m k + 1)). lia.
Qed.

(** A [Map] holds each key once. *)
Lemma set_keys_NoDup m k v : NoDup m.*1 -> NoDup (JSMap.set m k v).*1.
Proof.
  induction m as [|[k0 v0] m IH]; simpl; intros Hnd.
  - apply NoDup_singleton.
  - apply NoDup_cons in Hnd as [Hk0 Hnd].
    destruct (decide (k0 = k)) as [->|Hne]; simpl; [by constructor|].
    constructor; [|by apply IH].
    intros Hin. apply Hk0. clear -Hin Hne.
    induction m as [|[k1 v1] m IH]; simpl in *.
    + rewrite elem_of_cons, elem_of_nil in Hin. by destruct Hin.
    + destruct (decide (k1 = k)) as [->|Hne1]; simpl in *.
      * rewrite !elem_of_cons in *. destruct Hin as [?|?]; [done|by right].
      * rewrite !elem_of_cons in *. destruct Hin as [?|?]; [by left|right; by apply IH].
Qed.

Lemma increment_keys_NoDup m k : NoDup m.*1 -> NoDup (increment m k).*1.
Proof.
  intros H. unfold increment. apply set_keys_NoDup.
  destruct (JSMap.missing m k); [by apply set_keys_NoDup|done].
Qed.

End JSMapFacts.

Lemma countLog_total table counts log :
  JSMap.total (countLog table counts log).1 = JSMap.total counts.1 + 1 /\
  JSMap.total (countLog table counts log).2 = JSMap.total counts.2 + 1.
Proof. destruct counts as [tc pc]. simpl. by rewrite !JSMapFacts.total_increment. Qed.

Lemma foldl_countLog_total table logs counts :
  JSMap.total (foldl (countLog table) counts logs).1 = JSMap.total counts.1 + length logs /\
  JSMap.total (foldl (countLog table) counts logs).2 = JSMap.total counts.2 + length logs.
Proof.
  revert counts. induction logs as [|log logs IH]; intros counts; [simpl; lia|].
  change (foldl (countLog table) counts (log :: logs))
    with (foldl (countLog table) (countLog table counts log) logs).
  destruct (IH (countLog table counts log)) as [-> ->].
  destruct (countLog_total table counts log) as [-> ->]. simpl. lia.
Qed.

Lemma foldl_countLog_keys_NoDup table logs counts :
  NoDup counts.1.*1 -> NoDup counts.2.*1 ->
  NoDup (foldl (countLog table) counts logs).1.*1 /\
  NoDup (foldl (countLog table) counts logs).2.*1.
Proof.
  revert counts. induction logs as [|log logs IH]; intros [tc pc] H1 H2; [done|].
  apply IH; simpl; by apply JSMapFacts.increment_keys_NoDup.
Qed.

(** The two [Map]s that the loop builds hold each key once, so [JSMap.total]
    adds one count per key. *)
Lemma countLogs_keys_NoDup logs table :
  NoDup (countLogs logs table).1.*1 /\ NoDup (countLogs logs table).2.*1.
Proof.
  apply foldl_countLog_keys_NoDup; simpl; [apply NoDup_singleton|apply NoDup_nil_2].
Qed.

(** C4: the counting loop drops no record.  One step adds 1 to the count of
    exactly one tag (the record's tag) and of exactly one port/protocol key
    (the record's join key) and leaves the other counts as they were; after
    the loop the tag counts and the port/protocol counts each sum to the
    number of records. *)
Theorem countLogs_drops_no_record (logs : list FlowRecord) (table : LookupTable) :
  JSMap.total (countLogs logs table).1 = length logs /\
  JSMap.total (countLogs logs table).2 = length logs /\
  forall (counts : JSMap.t * JSMap.t) (log : FlowRecord),
  exists tag portProtocolKey : string,
    (forall k, JSMap.count (countLog table counts log).1 k
               = JSMap.count counts.1 k + (if bool_decide (k = tag) then 1 else 0)) /\
    (forall k, JSMap.count (countLog table counts log).2 k
               = JSMap.count counts.2 k
                 + (if bool_decide (k = portProtocolKey) then 1 else 0)).
Proof.
  unfold countLogs.
  destruct (foldl_countLog_total table logs (tagCounts0, portProtocolCounts0)) as [-> ->].
  repeat split; try done.
  intros [tc pc] log.
  exists (tagOf table (serialize (log !! "dstport") (log !! "protocol"))),
         (serialize (log !! "dstport") (log !! "protocol")).
  split; intros k; simpl; apply JSMapFacts.count_increment.
Qed.

(** C5: the tag counts start with "untagged" at 0, and a record whose join
    key has no entry in the lookup table adds exactly 1 to the count of
    "untagged" and changes no other tag count. *)
Theorem untagged_fallback (table : LookupTable)
    (tagCounts portProtocolCounts : JSMap.t) (log : FlowRecord) :
  table !! serialize (log !! "dstport") (log !! "protocol") = None ->
  JSMap.get tagCounts0 "untagged" = Some 0 /\
  JSMap.get (countLog table (tagCounts, portProtocolCounts) log).1 "untagged"
  = Some (JSMap.count tagCounts "untagged" + 1) /\
  forall tag, tag <> "untagged" ->
    JSMap.get (countLog table (tagCounts, portProtocolCounts) log).1 tag
    = JSMap.get tagCounts tag.
Proof.
  intros Habsent. split; [done|]. simpl. unfold tagOf. rewrite Habsent. simpl.
  split; [apply JSMapFacts.get_increment_eq|].
  intros tag Hne. by apply JSMapFacts.get_increment_ne.
Qed.

(** ** The join does not depend on letter case *)

Lemma toLowerChar_isWhiteSpace c : JS.isWhiteSpace (JS.toLowerChar c) = JS.isWhiteSpace c.
Proof. by destruct c as [[] [] [] [] [] [] [] []]. Qed.

Lemma toLowerChar_isDigit c : JS.isDigit (JS.toLowerChar c) = JS.isDigit c.
Proof. by destruct c as [[] [] [] [] [] [] [] []]. Qed.

Lemma toLowerChar_digit c : JS.isDigit c = true -> JS.toLowerChar c = c.
Proof. by destruct c as [[] [] [] [] [] [] [] []]. Qed.

Lemma toLowerChar_sign c :
  (c = "-"%char <-> JS.toLowerChar c = "-"%char) /\
  (c = "+"%char <-> JS.toLowerChar c = "+"%char).
Proof. by destruct c as [[] [] [] [] [] [] [] []]. Qed.

Lemma toLowerCase_app s t :
  JS.toLowerCase (s +:+ t) = JS.toLowerCase s +:+ JS.toLowerCase t.
Proof. induction s as [|c s IH]; [done|]. simpl. by rewrite IH. Qed.

Lemma toLowerCase_empty s : JS.toLowerCase s = "" <-> s = "".
Proof. by destruct s. Qed.

Lemma toLowerCase_trimStart s :
  JS.trimStart (JS.toLowerCase s) = JS.toLowerCase (JS.trimStart s).
Proof.
  induction s as [|c s IH]; [done|]. simpl.
  rewrite toLowerChar_isWhiteSpace. by destruct (JS.isWhiteSpace c).
Qed.

Lemma toLowerCase_digitPrefix s :
  JS.digitPrefix (JS.toLowerCase s) = JS.digitPrefix s.
Proof.
  induction s as [|c s IH]; [done|]. simpl. rewrite toLowerChar_isDigit.
  destruct (JS.isDigit c) eqn:E; [|done]. by rewrite IH, toLowerChar_digit.
Qed.

Lemma parseInt_toLowerCase s : JS.parseInt (JS.toLowerCase s) = JS.parseInt s.
Proof.
  unfold JS.parseInt. rewrite toLowerCase_trimStart.
  destruct (JS.trimStart s) as [|c r]; [done|].
  change (JS.toLowerCase (String c r))
    with (String (JS.toLowerChar c) (JS.toLowerCase r)).
  destruct c as [[] [] [] [] [] [] [] []];
    match goal with
    | |- context [JS.toLowerChar ?c] =>
        let c' := eval vm_compute in (JS.toLowerChar c) in
        change (JS.toLowerChar c) with c'
    end;
    cbn; rewrite ?toLowerCase_digitPrefix; reflexivity.
Qed.

Lemma parseInt_modulo_case s t :
  JS.toLowerCase s = JS.toLowerCase t -> JS.parseInt s = JS.parseInt t.
Proof.
  intros H. by rewrite <- (parseInt_toLowerCase s), H, parseInt_toLowerCase.
Qed.

Lemma toLowerCase_ToString (v v' : option string) :
  sameModuloCase v v' ->
  JS.toLowerCase (JS.ToString v) = JS.toLowerCase (JS.ToString v').
Proof.
  unfold sameModuloCase. destruct v, v'; simpl; intros H; by simplify_eq.
Qed.

(** The key that [serialize] builds is the same for values that differ only
    in letter case. *)
Lemma serialize_modulo_case (k k' v v' : option string) :
  sameModuloCase k k' -> sameModuloCase v v' -> serialize k v = serialize k' v'.
Proof.
  intros Hk Hv. unfold serialize. rewrite !toLowerCase_app.
  by rewrite (toLowerCase_ToString _ _ Hk), (toLowerCase_ToString _ _ Hv).
Qed.

Lemma sameModuloCase_empty (v v' : option string) :
  sameModuloCase v v' -> v = Some "" <-> v' = Some "".
Proof.
  unfold sameModuloCase.
  destruct v as [s|], v' as [s'|]; simpl; intros H; simplify_eq; [|done].
  split; intros [= ->]; f_equal; simpl in H.
  - by destruct s'.
  - by destruct s.
Qed.

Lemma parseCSVLine_modulo_case line line' :
  csvLinesModuloCase line line' ->
  parseCSVLine line LOOKUP_DEFAULT_FORMAT = parseCSVLine line' LOOKUP_DEFAULT_FORMAT.
Proof.
  intros (Hlen & H0 & H1 & H2). unfold parseCSVLine. rewrite Hlen.
  destruct (negb _); [done|].
  rewrite (bool_decide_ext _ (JS.split "," (JS.trim line') !! 0 = Some "" \/
                             JS.split "," (JS.trim line') !! 1 = Some "" \/
                             JS.split "," (JS.trim line') !! 2 = Some "")).
  - case_bool_decide; [done|].
    by rewrite (serialize_modulo_case _ _ _ _ H0 H1), H2.
  - rewrite (sameModuloCase_empty _ _ H0), (sameModuloCase_empty _ _ H1), H2. done.
Qed.

Lemma buildLookupTable_modulo_case csv csv' :
  Forall2 csvLinesModuloCase (JS.split "010" (JS.trim csv)) (JS.split "010" (JS.trim csv')) ->
  buildLookupTable csv = buildLookupTable csv'.
Proof.
  unfold buildLookupTable. generalize (∅ : LookupTable).
  intros acc H. revert acc.
  induction H as [|l l' ls ls' Hl _ IH]; intros acc; [done|].
  simpl. rewrite IH. f_equal. unfold addLookupLine.
  by rewrite (parseCSVLine_modulo_case _ _ Hl).
Qed.

Lemma countLog_modulo_case table counts log log' :
  recordsModuloCase log log' -> countLog table counts log = countLog table counts log'.
Proof.
  intros [Hd Hp]. destruct counts as [tc pc]. simpl.
  by rewrite (serialize_modulo_case _ _ _ _ Hd Hp).
Qed.

Lemma countLogs_modulo_case table logs logs' :
  Forall2 recordsModuloCase logs logs' -> countLogs logs table = countLogs logs' table.
Proof.
  unfold countLogs. generalize (tagCounts0, portProtocolCounts0).
  intros counts H. revert counts.
  induction H as [|l l' ls ls' Hl _ IH]; intros counts; [done|].
  simpl. by rewrite IH, (countLog_modulo_case _ _ _ _ Hl).
Qed.

Section CaseFacts.

Variable protocol_numbers : Z -> option ProtocolNumber.

Lemma handleFields_modulo_case tok tok' :
  JS.toLowerCase tok = JS.toLowerCase tok' ->
  JS.toLowerCase (handleFields protocol_numbers "protocol" tok)
  = JS.toLowerCase (handleFields protocol_numbers "protocol" tok').
Proof.
  intros H. rewrite !handleFields_protocol, (parseInt_modulo_case _ _ H).
  by destruct (JS.parseInt tok' ≫= protocol_numbers).
Qed.

(** Two lines that differ in the case of dstport and protocol are both
    skipped or give records that differ in the case of these fields. *)
Lemma parseLineFromLog_modulo_case line line' :
  logLinesModuloCase line line' ->
  option_Forall2 recordsModuloCase
    (parseLineFromLog protocol_numbers line AVAILABLE_FIELDS_DEFAULT)
    (parseLineFromLog protocol_numbers line' AVAILABLE_FIELDS_DEFAULT).
Proof.
  intros (Hlen & H6 & H7). unfold parseLineFromLog. rewrite Hlen.
  destruct (Nat.eqb_spec (length (JS.split " " (JS.trim line')))
              (length AVAILABLE_FIELDS_DEFAULT)) as [E|]; [|constructor].
  simpl. constructor. rewrite <- Hlen in E.
  destruct (lookup_lt_is_Some_2 (JS.split " " (JS.trim line)) 6) as [d Hd];
    [rewrite E; simpl; lia|].
  destruct (lookup_lt_is_Some_2 (JS.split " " (JS.trim line)) 7) as [p Hp];
    [rewrite E; simpl; lia|].
  destruct (lookup_lt_is_Some_2 (JS.split " " (JS.trim line')) 6) as [d' Hd'];
    [rewrite <- Hlen, E; simpl; lia|].
  destruct (lookup_lt_is_Some_2 (JS.split " " (JS.trim line')) 7) as [p' Hp'];
    [rewrite <- Hlen, E; simpl; lia|].
  rewrite Hd, Hd' in H6. rewrite Hp, Hp' in H7.
  unfold sameModuloCase in H6, H7. simpl in H6, H7.
  injection H6 as H6. injection H7 as H7.
  unfold recordsModuloCase, sameModuloCase.
  rewrite (reduceFields_lookup protocol_numbers _ _ 0 _ 6 "dstport" d);
    [|apply AVAILABLE_FIELDS_DEFAULT_NoDup | lia | done | done].
  rewrite (reduceFields_lookup protocol_numbers _ _ 0 _ 6 "dstport" d');
    [|apply AVAILABLE_FIELDS_DEFAULT_NoDup | lia | done | done].
  rewrite (reduceFields_lookup protocol_numbers _ _ 0 _ 7 "protocol" p);
    [|apply AVAILABLE_FIELDS_DEFAULT_NoDup | lia | done | done].
  rewrite (reduceFields_lookup protocol_numbers _ _ 0 _ 7 "protocol" p');
    [|apply AVAILABLE_FIELDS_DEFAULT_NoDup | lia | done | done].
  simpl. rewrite !handleFields_other by done.
  by rewrite H6, (handleFields_modulo_case _ _ H7).
Qed.

Lemma parseLog_modulo_case logfile logfile' :
  Forall2 logLinesModuloCase
    (JS.split "010" (JS.trim logfile)) (JS.split "010" (JS.trim logfile')) ->
  Forall2 recordsModuloCase
    (parseLog protocol_numbers logfile) (parseLog protocol_numbers logfile').
Proof.
  unfold parseLog. intros H.
  induction H as [|l l' ls ls' Hl _ IH]; [constructor|].
  simpl. destruct (parseLineFromLog_modulo_case _ _ Hl); [by constructor|done].
Qed.

(** C3: the join is case-insensitive.  The lookup key and the join key are
    both built by [serialize].  A record with dstport 80 whose protocol is
    "tcp" in any letter case, against a table that maps "80,tcp" to "web",
    adds 1 to the tag count of "web" and to the port/protocol count of
    "80,tcp".  And two runs whose lookup lines and log lines differ only in
    the letter case of their dstport and protocol tokens end with the same
    two count tables. *)
Theorem join_case_insensitive
    (lookupBuffer lookupBuffer' logfileBuffer logfileBuffer' : string)
    (table : LookupTable) (tagCounts portProtocolCounts : JSMap.t)
    (log : FlowRecord) (protocol : string) :
  Forall2 csvLinesModuloCase
    (JS.split "010" (JS.trim lookupBuffer)) (JS.split "010" (JS.trim lookupBuffer')) ->
  Forall2 logLinesModuloCase
    (JS.split "010" (JS.trim logfileBuffer)) (JS.split "010" (JS.trim logfileBuffer')) ->
  log !! "dstport" = Some "80" ->
  log !! "protocol" = Some protocol ->
  JS.toLowerCase protocol = "tcp" ->
  table !! "80,tcp" = Some "web" ->
  main protocol_numbers lookupBuffer logfileBuffer
  = main protocol_numbers lookupBuffer' logfileBuffer' /\
  serialize (log !! "dstport") (log !! "protocol") = "80,tcp" /\
  JSMap.get (countLog table (tagCounts, portProtocolCounts) log).1 "web"
  = Some (JSMap.count tagCounts "web" + 1) /\
  JSMap.get (countLog table (tagCounts, portProtocolCounts) log).2 "80,tcp"
  = Some (JSMap.count portProtocolCounts "80,tcp" + 1).
Proof.
  intros Hcsv Hlog Hd Hp Hlower Hweb.
  assert (serialize (log !! "dstport") (log !! "protocol") = "80,tcp") as Hkey.
  { rewrite Hd, Hp. unfold serialize. simpl JS.ToString.
    rewrite !toLowerCase_app, Hlower. reflexivity. }
  split; [|split; [done|]].
  - unfold main. rewrite (buildLookupTable_modulo_case _ _ Hcsv).
    apply countLogs_modulo_case. by apply parseLog_modulo_case.
  - simpl. rewrite Hkey. unfold tagOf. rewrite Hweb. simpl.
    split; apply JSMapFacts.get_increment_eq.
Qed.

End CaseFacts.

(** ** Instances on sample inputs *)

Lemma sample_fields_are_fields : Forall isField sample_fields.
Proof. repeat (constructor; [split; [discriminate|reflexivity]|]). constructor. Qed.

Lemma single_spaced_line_parsed_witness :
  JS.split " " (JS.trim ("  " +:+ join " " sample_fields +:+ String "013" "")) = sample_fields /\
  exists r, parseLineFromLog iana_sample ("  " +:+ join " " sample_fields +:+ String "013" "")
              AVAILABLE_FIELDS_DEFAULT = Some r.
Proof.
  apply (single_spaced_line_parsed iana_sample sample_fields "  " (String "013" ""));
    [reflexivity | exact sample_fields_are_fields | reflexivity | reflexivity].
Defined.

Lemma parsed_record_matches_tokens_witness :
  exists r,
    parseLineFromLog iana_sample sample_line AVAILABLE_FIELDS_DEFAULT = Some r /\
    r !! "dstport" = Some "80" /\ r !! "action" = Some "ACCEPT" /\
    r !! "protocol" = Some "TCP".
Proof.
  destruct (parsed_record_matches_tokens iana_sample sample_line eq_refl)
    as (r & Hr & Hfields & Hprotocol & _).
  exists r. split; [exact Hr|]. split; [|split].
  - apply (Hfields 6 "dstport" "80"); [reflexivity|reflexivity|discriminate].
  - apply (Hfields 12 "action" "ACCEPT"); [reflexivity|reflexivity|discriminate].
  - apply (Hprotocol "6"). reflexivity.
Defined.

Lemma join_case_insensitive_witness :
  main iana_sample sample_csv upper_log = main iana_sample sample_csv_lower lower_log /\
  serialize (web_log !! "dstport") (web_log !! "protocol") = "80,tcp" /\
  JSMap.get (countLog web_table (tagCounts0, portProtocolCounts0) web_log).1 "web"
  = Some (JSMap.count tagCounts0 "web" + 1) /\
  JSMap.get (countLog web_table (tagCounts0, portProtocolCounts0) web_log).2 "80,tcp"
  = Some (JSMap.count portProtocolCounts0 "80,tcp" + 1).
Proof.
  apply (join_case_insensitive iana_sample sample_csv sample_csv_lower
           upper_log lower_log web_table tagCounts0 portProtocolCounts0 web_log "TcP").
  - vm_compute. repeat constructor.
  - vm_compute. repeat constructor.
  - reflexivity.
  - reflexivity.
  - reflexivity.
  - reflexivity.
Defined.

Lemma untagged_fallback_witness :
  JSMap.get tagCounts0 "untagged" = Some 0 /\
  JSMap.get (countLog web_table ([("untagged", 0); ("web", 2)], [("80,tcp", 2)]) ssh_log).1
    "untagged" = Some (JSMap.count [("untagged", 0); ("web", 2)] "untagged" + 1) /\
  forall tag, tag <> "untagged" ->
    JSMap.get (countLog web_table ([("untagged", 0); ("web", 2)], [("80,tcp", 2)]) ssh_log).1 tag
    = JSMap.get [("untagged", 0); ("web", 2)] tag.
Proof.
  apply (untagged_fallback web_table [("untagged", 0); ("web", 2)] [("80,tcp", 2)] ssh_log).
  reflexivity.
Defined.

Lemma accepted_line_stored_witness :
  (forall acc, addLookupLine acc "80,TCP,web" !! "80,tcp" = Some "web") /\
  is_Some (buildLookupTable sample_csv !! "80,tcp") /\
  buildLookupTable sample_csv !! "80,tcp" = Some "web".
Proof.
  destruct (accepted_line_stored sample_csv [] ["25,tcp,mail"] "80,TCP,web"
              "80" "TCP" "web" eq_refl eq_refl)
    as (Hstep & Hsome & Hlast); [discriminate..|].
  split; [exact Hstep|]. split; [exact Hsome|].
  apply Hlast. constructor; [|constructor].
  intros e He. vm_compute in He. injection He as <-. discriminate.
Defined.

Lemma rejected_line_keeps_table_witness :
  parseCSVLine "80,,web" LOOKUP_DEFAULT_FORMAT = None /\
  addLookupLine web_table "80,,web" = web_table.
Proof.
  apply (rejected_line_keeps_table web_table "80,,web").
  left. right. apply list_elem_of_further, list_elem_of_here.
Defined.

Lemma last_write_wins_witness :
  buildLookupTable duplicate_csv !! "80,tcp" = Some "other".
Proof.
  apply (last_write_wins duplicate_csv [] [] [] "80,tcp,web" "80,TCP,other"
           {| key := "80,tcp"; value := Some "web" |}
           {| key := "80,tcp"; value := Some "other" |});
    [reflexivity | reflexivity | reflexivity | reflexivity | constructor].
Defined.

Lemma numeric_prefix_translated_witness :
  JS.parseInt "6abc" = Some 6%Z /\
  handleFields iana_sample "protocol" "6abc" = "TCP" /\
  exists r,
    parseLineFromLog iana_sample prefix_line AVAILABLE_FIELDS_DEFAULT = Some r /\
    r !! "protocol" = Some "TCP".
Proof.
  destruct (numeric_prefix_translated iana_sample 6 {| name := "TCP" |} "abc"
              eq_refl eq_refl) as (Hint & Hname & Hline).
  split; [exact Hint|]. split; [exact Hname|].
  apply (Hline prefix_line); reflexivity.
Defined.

(** ** Further properties of the parsers *)

(** *** Lines of a buffer *)

Lemma trimStart_ws s : allChars JS.isWhiteSpace s = true -> JS.trimStart s = "".
Proof.
  induction s as [|c s IH]; [done|]. simpl. intros [Hc Hs]%andb_prop.
  rewrite Hc. by apply IH.
Qed.

Lemma trim_ws s : allChars JS.isWhiteSpace s = true -> JS.trim s = "".
Proof. intros H. unfold JS.trim. by rewrite trimStart_ws. Qed.

Lemma trim_app_ws l m :
  allChars JS.isWhiteSpace m = true -> JS.trim (l +:+ m) = JS.trim l.
Proof.
  intros Hm. unfold JS.trim. induction l as [|c l IH].
  - rewrite append_nil_l. by rewrite trimStart_ws.
  - rewrite append_cons. simpl. destruct (JS.isWhiteSpace c); [done|].
    by rewrite <- append_cons, trimEnd_app_ws.
Qed.

Lemma trim_cons_ws c s : JS.isWhiteSpace c = true -> JS.trim (String c s) = JS.trim s.
Proof. intros H. unfold JS.trim. simpl. by rewrite H. Qed.

Lemma trimEnd_decompose s :
  exists w, allChars JS.isWhiteSpace w = true /\ s = JS.trimEnd s +:+ w.
Proof.
  induction s as [|c s (w & Hw & Hs)]; [by exists ""|]. simpl.
  destruct (JS.trimEnd s) as [|d t] eqn:E.
  - rewrite append_nil_l in Hs. subst w.
    destruct (JS.isWhiteSpace c) eqn:Hc.
    + exists (String c s). split; [|done]. simpl. by rewrite Hc, Hw.
    + exists s. by split.
  - exists w. split; [done|]. rewrite append_cons. by rewrite <- Hs.
Qed.

Lemma split_app_at_sep sep u v :
  JS.split sep (u +:+ String sep v) = JS.split sep u ++ JS.split sep v.
Proof.
  induction u as [|c u IH].
  - rewrite append_nil_l. simpl. by rewrite Ascii.eqb_refl.
  - rewrite append_cons. simpl. rewrite IH.
    destruct (Ascii.eqb c sep); [done|].
    pose proof (split_nonempty sep u). by destruct (JS.split sep u).
Qed.

(** Splitting a concatenation: the last piece of the first part and the first
    piece of the second are glued. *)
Lemma split_app_glue sep u v :
  exists init lastu hdv tlv,
    JS.split sep u = init ++ [lastu] /\ JS.split sep v = hdv :: tlv /\
    JS.split sep (u +:+ v) = init ++ [lastu +:+ hdv] ++ tlv.
Proof.
  induction u as [|c u (init & lastu & hdv & tlv & Hu & Hv & Huv)].
  - pose proof (split_nonempty sep v).
    destruct (JS.split sep v) as [|hdv tlv] eqn:E; [done|].
    by exists [], "", hdv, tlv.
  - rewrite append_cons. simpl. rewrite Hu, Huv.
    destruct (Ascii.eqb c sep).
    + by exists ("" :: init), lastu, hdv, tlv.
    + destruct init as [|i init]; simpl.
      * by exists [], (String c lastu), hdv, tlv.
      * by exists (String c i :: init), lastu, hdv, tlv.
Qed.

Lemma allChars_split p sep s :
  allChars p s = true -> Forall (fun t => allChars p t = true) (JS.split sep s).
Proof.
  induction s as [|c s IH]; simpl; [by repeat constructor|].
  intros [Hc Hs]%andb_prop. specialize (IH Hs).
  destruct (Ascii.eqb c sep); [by constructor|].
  destruct (JS.split sep s) as [|t ts]; [by repeat constructor; simpl; rewrite Hc|].
  apply Forall_cons in IH as [Ht Hts]. constructor; [|done]. simpl. by rewrite Hc, Ht.
Qed.

Lemma allChars_app p s t :
  allChars p (s +:+ t) = allChars p s && allChars p t.
Proof. induction s as [|c s IH]; [done|]. simpl. by rewrite IH, andb_assoc. Qed.

Section Lines.

Context {A : Type}.

(** A line parser that looks at the trimmed line only and rejects the empty
    line. *)
Variable parse : string -> option A.
Hypothesis parse_trim : forall line, parse line = parse (JS.trim line).
Hypothesis parse_empty : parse "" = None.

Lemma parse_cons_ws c s : JS.isWhiteSpace c = true -> parse (String c s) = parse s.
Proof. intros H. by rewrite parse_trim, trim_cons_ws, <- parse_trim. Qed.

Lemma parse_app_ws l w : allChars JS.isWhiteSpace w = true -> parse (l +:+ w) = parse l.
Proof. intros H. by rewrite parse_trim, trim_app_ws, <- parse_trim. Qed.

Lemma parse_ws w : allChars JS.isWhiteSpace w = true -> parse w = None.
Proof. intros H. by rewrite parse_trim, trim_ws. Qed.

Lemma omap_parse_ws_lines (ls : list string) :
  Forall (fun l => allChars JS.isWhiteSpace l = true) ls -> omap parse ls = [].
Proof.
  induction 1 as [|l ls Hl _ IH]; [done|]. simpl. by rewrite (parse_ws _ Hl).
Qed.

Lemma omap_split_trimStart s :
  omap parse (JS.split "010" (JS.trimStart s)) = omap parse (JS.split "010" s).
Proof.
  induction s as [|c s IH]; [done|].
  simpl JS.trimStart. destruct (JS.isWhiteSpace c) eqn:Hc; [|done].
  rewrite IH. simpl JS.split. destruct (Ascii.eqb c "010").
  - simpl. by rewrite parse_empty.
  - pose proof (split_nonempty "010" s).
    destruct (JS.split "010" s) as [|t ts]; [done|]. simpl.
    by rewrite parse_cons_ws.
Qed.

Lemma omap_split_app_ws u w :
  allChars JS.isWhiteSpace w = true ->
  omap parse (JS.split "010" (u +:+ w)) = omap parse (JS.split "010" u).
Proof.
  intros Hw. destruct (split_app_glue "010" u w)
    as (init & lastu & hdw & tlw & -> & Hsw & ->).
  pose proof (allChars_split _ "010" _ Hw) as Hall. rewrite Hsw in Hall.
  apply Forall_cons in Hall as [Hhd Htl].
  rewrite !omap_app. simpl. rewrite (parse_app_ws _ _ Hhd).
  rewrite (omap_parse_ws_lines _ Htl). by destruct (parse lastu).
Qed.

(** Trimming the whole buffer before it is split into lines changes nothing
    for such a parser. *)
Lemma omap_split_trim s :
  omap parse (JS.split "010" (JS.trim s)) = omap parse (JS.split "010" s).
Proof.
  unfold JS.trim. rewrite <- (omap_split_trimStart s).
  destruct (trimEnd_decompose (JS.trimStart s)) as (w & Hw & Hs).
  transitivity (omap parse (JS.split "010" (JS.trimEnd (JS.trimStart s) +:+ w))).
  - symmetry. by apply omap_split_app_ws.
  - by rewrite <- Hs.
Qed.

Lemma omap_split_concat a b :
  omap parse (JS.split "010" (JS.trim (a +:+ String "010" b)))
  = omap parse (JS.split "010" (JS.trim a)) ++ omap parse (JS.split "010" (JS.trim b)).
Proof. by rewrite !omap_split_trim, split_app_at_sep, omap_app. Qed.

End Lines.

Lemma trimEnd_idemp s : JS.trimEnd (JS.trimEnd s) = JS.trimEnd s.
Proof.
  induction s as [|c s IH]; [done|]. simpl.
  destruct (JS.trimEnd s) as [|d t] eqn:E.
  - destruct (JS.isWhiteSpace c) eqn:Hc; [done|]. simpl. by rewrite Hc.
  - change (JS.trimEnd (String c (String d t)))
      with (match JS.trimEnd (String d t) with
            | "" => if JS.isWhiteSpace c then "" else String c ""
            | r => String c r
            end).
    by rewrite IH.
Qed.

Lemma trimStart_head s :
  JS.trimStart s = "" \/
  exists c r, JS.trimStart s = String c r /\ JS.isWhiteSpace c = false.
Proof.
  induction s as [|c s IH]; [by left|]. simpl.
  destruct (JS.isWhiteSpace c) eqn:Hc; [done|]. right. by exists c, s.
Qed.

Lemma trim_idemp s : JS.trim (JS.trim s) = JS.trim s.
Proof.
  unfold JS.trim. destruct (trimStart_head s) as [->|(c & r & -> & Hc)]; [done|].
  assert (exists r', JS.trimEnd (String c r) = String c r') as [r' Hr'].
  { simpl. destruct (JS.trimEnd r); [rewrite Hc|]; eauto. }
  rewrite Hr'. rewrite trimStart_id by done. by rewrite <- Hr', trimEnd_idemp.
Qed.

Section ParseLogFacts.

Variable protocol_numbers : Z -> option ProtocolNumber.

Lemma parseLineFromLog_trim line format :
  parseLineFromLog protocol_numbers line format
  = parseLineFromLog protocol_numbers (JS.trim line) format.
Proof. unfold parseLineFromLog. by rewrite trim_idemp. Qed.

Lemma parseLog_lines logfile :
  parseLog protocol_numbers logfile
  = omap (fun line => parseLineFromLog protocol_numbers line AVAILABLE_FIELDS_DEFAULT)
         (JS.split "010" logfile).
Proof.
  unfold parseLog. apply omap_split_trim; [|done].
  intros line. apply parseLineFromLog_trim.
Qed.

(** X1: the records of two logs joined by a line break are the records of
    the first followed by the records of the second. *)
Theorem parseLog_concat (a b : string) :
  parseLog protocol_numbers (a +:+ String "010" b)
  = parseLog protocol_numbers a ++ parseLog protocol_numbers b.
Proof. by rewrite !parseLog_lines, split_app_at_sep, omap_app. Qed.

(** X2: a line inside a log contributes its record, or nothing when it is
    skipped, and does not affect the records of the lines before and after
    it; a line whose token count is not 14 can be removed from the log
    without changing the result. *)
Theorem parseLog_line_independent (a line b : string) :
  allChars (notChar "010") line = true ->
  parseLog protocol_numbers (a +:+ String "010" (line +:+ String "010" b))
  = parseLog protocol_numbers a
    ++ option_list (parseLineFromLog protocol_numbers line AVAILABLE_FIELDS_DEFAULT)
    ++ parseLog protocol_numbers b /\
  (length (JS.split " " (JS.trim line)) <> 14 ->
   parseLog protocol_numbers (a +:+ String "010" (line +:+ String "010" b))
   = parseLog protocol_numbers (a +:+ String "010" b)).
Proof.
  intros Hline. rewrite !parseLog_lines, !split_app_at_sep, !omap_app.
  rewrite (split_no_sep _ line) by done.
  change (omap (fun l => parseLineFromLog protocol_numbers l AVAILABLE_FIELDS_DEFAULT) [line])
    with (option_list (parseLineFromLog protocol_numbers line AVAILABLE_FIELDS_DEFAULT)).
  split; [done|]. intros Hlen. unfold parseLineFromLog.
  destruct (Nat.eqb_spec (length (JS.split " " (JS.trim line)))
              (length AVAILABLE_FIELDS_DEFAULT)) as [E|]; [done|done].
Qed.

(** X3: every record that [parseLog] returns was parsed from a line of the
    buffer with exactly 14 tokens; it has exactly the 14 fields, each holding
    the token at its position ([protocol]: its translation), so its dstport
    and protocol are defined and its join key is made of them. *)
Theorem parseLog_records (logfile : string) (r : FlowRecord) :
  r ∈ parseLog protocol_numbers logfile ->
  exists line tokens,
    line ∈ JS.split "010" (JS.trim logfile) /\
    tokens = JS.split " " (JS.trim line) /\
    length tokens = 14 /\
    (forall i field, AVAILABLE_FIELDS_DEFAULT !! i = Some field ->
        r !! field = handleFields protocol_numbers field <$> tokens !! i) /\
    (forall field, r !! field <> None <-> field ∈ AVAILABLE_FIELDS_DEFAULT) /\
    (exists dstport protocol,
        tokens !! 6 = Some dstport /\
        protocol = handleFields protocol_numbers "protocol" (default "" (tokens !! 7)) /\
        joinKey r = JS.toLowerCase dstport +:+ "," +:+ JS.toLowerCase protocol).
Proof.
  unfold parseLog. intros (line & Hline & Hr)%list_elem_of_omap.
  exists line, (JS.split " " (JS.trim line)).
  unfold parseLineFromLog in Hr.
  destruct (Nat.eqb_spec (length (JS.split " " (JS.trim line)))
              (length AVAILABLE_FIELDS_DEFAULT)) as [E|]; [|done].
  simpl in Hr. injection Hr as <-.
  assert (forall i field, AVAILABLE_FIELDS_DEFAULT !! i = Some field ->
            reduceFields protocol_numbers AVAILABLE_FIELDS_DEFAULT
              (JS.split " " (JS.trim line)) 0 ∅ !! field
            = handleFields protocol_numbers field <$> JS.split " " (JS.trim line) !! i)
    as Hfields.
  { intros i field Hf.
    destruct (lookup_lt_is_Some_2 (JS.split " " (JS.trim line)) i) as [tok Ht].
    { rewrite E. by eapply lookup_lt_Some. }
    rewrite Ht. simpl.
    apply (reduceFields_lookup _ _ _ 0 _ i);
      [apply AVAILABLE_FIELDS_DEFAULT_NoDup | lia | done | done]. }
  repeat split; try done.
  - intros Hsome. destruct (decide (field ∈ AVAILABLE_FIELDS_DEFAULT)); [done|].
    exfalso. apply Hsome. rewrite reduceFields_lookup_other; [done|].
    intros i Hi. destruct (AVAILABLE_FIELDS_DEFAULT !! i) as [f|] eqn:Ef.
    + simpl. intros ->. by eapply n, list_elem_of_lookup_2.
    + apply lookup_ge_None in Ef. lia.
  - intros (i & Hi)%list_elem_of_lookup. rewrite (Hfields i field Hi).
    destruct (lookup_lt_is_Some_2 (JS.split " " (JS.trim line)) i) as [tok Ht].
    { rewrite E. by eapply lookup_lt_Some. }
    by rewrite Ht.
  - destruct (lookup_lt_is_Some_2 (JS.split " " (JS.trim line)) 6) as [d Hd];
      [rewrite E; simpl; lia|].
    destruct (lookup_lt_is_Some_2 (JS.split " " (JS.trim line)) 7) as [p Hp];
      [rewrite E; simpl; lia|].
    exists d, (handleFields protocol_numbers "protocol" p).
    split; [done|]. rewrite Hp. split; [done|].
    unfold joinKey, serialize.
    rewrite (Hfields 6 "dstport" eq_refl), (Hfields 7 "protocol" eq_refl), Hd, Hp.
    simpl. rewrite handleFields_other by done. by rewrite !toLowerCase_app.
Qed.

Lemma digitPrefix_empty s : startsWithDigit s = false -> JS.digitPrefix s = "".
Proof. destruct s as [|c s]; [done|]. simpl. by intros ->. Qed.

(** X4: a protocol token that does not start (after white space and one
    sign) with a digit is never translated, whatever the table holds. *)
Theorem non_numeric_protocol_kept (value : string) :
  startsWithDigit (stripSign (JS.trimStart value)) = false ->
  JS.parseInt value = None /\
  handleFields protocol_numbers "protocol" value = value.
Proof.
  intros H%digitPrefix_empty.
  assert (JS.parseInt value = None) as Hnan.
  { unfold JS.parseInt. destruct (JS.trimStart value) as [|c r]; [done|].
    unfold stripSign in H.
    destruct (decide (c = "-"%char)) as [->|Hm]; [simpl in *; by rewrite H|].
    destruct (decide (c = "+"%char)) as [->|Hp]; [simpl in *; by rewrite H|].
    rewrite bool_decide_eq_false_2 in H by (by intros [?|?]).
    destruct c as [[] [] [] [] [] [] [] []]; try done; simpl in *; by rewrite ?H. }
  split; [done|]. by rewrite handleFields_protocol, Hnan.
Qed.

End ParseLogFacts.

(** ** Further properties of the lookup table *)

Lemma parseCSVLine_trim line format :
  parseCSVLine line format = parseCSVLine (JS.trim line) format.
Proof. unfold parseCSVLine. by rewrite trim_idemp. Qed.

Lemma parseCSVLine_inv line e :
  parseCSVLine line LOOKUP_DEFAULT_FORMAT = Some e ->
  exists a b c,
    JS.split "," (JS.trim line) = [a; b; c] /\ a <> "" /\ b <> "" /\ c <> "" /\
    e = {| key := JS.toLowerCase (a +:+ "," +:+ b); value := Some c |}.
Proof.
  unfold parseCSVLine.
  destruct (Nat.eqb_spec (length (JS.split "," (JS.trim line)))
              (length LOOKUP_DEFAULT_FORMAT)) as [E|]; [|done]. simpl.
  destruct (JS.split "," (JS.trim line)) as [|a [|b [|c [|d l]]]]; try done.
  case_bool_decide as Hempty; [done|]. simpl. intros [= <-].
  exists a, b, c. repeat split; try done; intros ->; apply Hempty; auto.
Qed.

Lemma foldl_addLookupLine_omap acc (lines : list string) :
  foldl addLookupLine acc lines
  = foldl storeEntry acc (omap (fun l => parseCSVLine l LOOKUP_DEFAULT_FORMAT) lines).
Proof.
  revert acc. induction lines as [|l lines IH]; intros acc; [done|].
  simpl. rewrite IH. unfold addLookupLine.
  by destruct (parseCSVLine l LOOKUP_DEFAULT_FORMAT).
Qed.

Lemma buildLookupTable_lines csv :
  buildLookupTable csv = foldl addLookupLine ∅ (JS.split "010" csv).
Proof.
  unfold buildLookupTable. rewrite !foldl_addLookupLine_omap. f_equal.
  apply omap_split_trim; [|done]. intros line. apply parseCSVLine_trim.
Qed.

Lemma addLookupLine_union (acc : LookupTable) line :
  addLookupLine acc line = addLookupLine ∅ line ∪ acc.
Proof.
  unfold addLookupLine.
  destruct (parseCSVLine line LOOKUP_DEFAULT_FORMAT) as [e|] eqn:E;
    [|by rewrite (left_id_L ∅ (∪))].
  destruct (parseCSVLine_value _ _ E) as [v Hv]. rewrite Hv. simpl.
  by rewrite insert_empty, insert_union_singleton_l.
Qed.

Lemma foldl_addLookupLine_union (acc : LookupTable) (lines : list string) :
  foldl addLookupLine acc lines = foldl addLookupLine ∅ lines ∪ acc.
Proof.
  revert acc. induction lines as [|l lines IH]; intros acc.
  - simpl. by rewrite (left_id_L ∅ (∪)).
  - simpl. rewrite (IH (addLookupLine acc l)), (IH (addLookupLine ∅ l)).
    rewrite (addLookupLine_union acc l). by rewrite (assoc_L (∪)).
Qed.

(** X5: the table of two lookup files joined by a line break holds the
    entries of both; where both have a key, the entry of the second file
    stands. *)
Theorem buildLookupTable_concat (a b : string) :
  buildLookupTable (a +:+ String "010" b) = buildLookupTable b ∪ buildLookupTable a.
Proof.
  rewrite !buildLookupTable_lines, split_app_at_sep, foldl_app.
  apply foldl_addLookupLine_union.
Qed.

Lemma foldl_addLookupLine_sound (acc : LookupTable) (lines : list string) k v :
  foldl addLookupLine acc lines !! k = Some v ->
  acc !! k = Some v \/
  exists line, line ∈ lines /\
    parseCSVLine line LOOKUP_DEFAULT_FORMAT = Some {| key := k; value := Some v |}.
Proof.
  revert acc. induction lines as [|l lines IH]; intros acc; [by left|].
  simpl. intros [Hacc|(line & Hin & Hline)]%IH.
  - unfold addLookupLine in Hacc.
    destruct (parseCSVLine l LOOKUP_DEFAULT_FORMAT) as [[k' v']|] eqn:E; [|by left].
    simpl in Hacc. destruct (decide (k' = k)) as [->|Hne].
    + rewrite setProperty_lookup in Hacc. subst v'. right. exists l.
      split; [apply list_elem_of_here|done].
    + rewrite setProperty_lookup_ne in Hacc by done. by left.
  - right. exists line. split; [by apply list_elem_of_further|done].
Qed.

(** X6: the table holds nothing that is not in the file: every entry is the
    entry of a line of the buffer whose trimmed text has exactly 3 nonempty
    comma-separated tokens, the key being the lower-cased first two joined by
    a comma and the tag the third. *)
Theorem buildLookupTable_sound (csv k v : string) :
  buildLookupTable csv !! k = Some v ->
  exists line a b,
    line ∈ JS.split "010" (JS.trim csv) /\
    JS.split "," (JS.trim line) = [a; b; v] /\
    a <> "" /\ b <> "" /\ v <> "" /\
    k = JS.toLowerCase (a +:+ "," +:+ b).
Proof.
  unfold buildLookupTable.
  intros [Hempty|(line & Hin & Hline)]%foldl_addLookupLine_sound; [done|].
  destruct (parseCSVLine_inv _ _ Hline) as (a & b & c & Hsplit & Ha & Hb & Hc & [= -> ->]).
  by exists line, a, b.
Qed.

Lemma toLowerChar_idemp c : JS.toLowerChar (JS.toLowerChar c) = JS.toLowerChar c.
Proof. by destruct c as [[] [] [] [] [] [] [] []]. Qed.

Lemma toLowerCase_idemp s : JS.toLowerCase (JS.toLowerCase s) = JS.toLowerCase s.
Proof. induction s as [|c s IH]; [done|]. simpl. by rewrite toLowerChar_idemp, IH. Qed.

Lemma toLowerChar_comma c :
  Ascii.eqb (JS.toLowerChar c) "," = Ascii.eqb c ",".
Proof. by destruct c as [[] [] [] [] [] [] [] []]. Qed.

Lemma countChar_toLowerCase s : countChar "," (JS.toLowerCase s) = countChar "," s.
Proof. induction s as [|c s IH]; [done|]. simpl. by rewrite toLowerChar_comma, IH. Qed.

Lemma countChar_app sep s t : countChar sep (s +:+ t) = countChar sep s + countChar sep t.
Proof. induction s as [|c s IH]; [done|]. simpl. rewrite IH. lia. Qed.

Lemma countChar_none sep s : allChars (notChar sep) s = true -> countChar sep s = 0.
Proof.
  induction s as [|c s IH]; [done|]. simpl. intros [Hc Hs]%andb_prop.
  unfold notChar in Hc. rewrite IH by done. by destruct (Ascii.eqb c sep).
Qed.

(** X7: the shape of the table.  Every key is in lower case and has exactly
    one comma, with a nonempty port before it and a nonempty protocol after
    it; every tag is nonempty and contains neither a comma nor a line
    break. *)
Theorem buildLookupTable_entries (csv k v : string) :
  buildLookupTable csv !! k = Some v ->
  JS.toLowerCase k = k /\
  countChar "," k = 1 /\
  (exists port protocol, k = port +:+ "," +:+ protocol /\ port <> "" /\ protocol <> "") /\
  v <> "" /\
  allChars (notChar ",") v = true /\
  allChars (notChar "010") v = true.
Proof.
  unfold buildLookupTable.
  intros [Hempty|(line & Hline & Hparse)]%foldl_addLookupLine_sound; [done|].
  destruct (parseCSVLine_inv _ _ Hparse)
    as (a & b & c & Hsplit & Ha & Hb & Hv & [= -> ->]).
  destruct (split_inv "," (JS.trim line)) as [Hjoin Hall].
  rewrite Hsplit in Hjoin, Hall.
  apply Forall_cons in Hall as [Hca Hall]. apply Forall_cons in Hall as [Hcb Hall].
  apply Forall_cons in Hall as [Hcv _].
  split; [apply toLowerCase_idemp|]. split; [|split; [|split; [done|split; [done|]]]].
  - rewrite countChar_toLowerCase, countChar_app. simpl.
    rewrite !countChar_none by done. done.
  - exists (JS.toLowerCase a), (JS.toLowerCase b). rewrite toLowerCase_app.
    split; [done|]. split; intros H; [by destruct a|by destruct b].
  - destruct (split_inv "010" (JS.trim csv)) as [_ Hlines].
    rewrite Forall_forall in Hlines. specialize (Hlines _ Hline).
    assert (allChars (notChar "010") (JS.trim line) = true) as Htrim.
    { unfold JS.trim. by apply allChars_trimEnd, allChars_trimStart. }
    pose proof (allChars_split _ "," _ Htrim) as Htok. rewrite Hsplit in Htok.
    apply Forall_cons in Htok as [_ Htok]. apply Forall_cons in Htok as [_ Htok].
    by apply Forall_cons in Htok as [Htok _].
Qed.

Lemma app_sep_inj sep x x' y y' :
  allChars (notChar sep) x = true -> allChars (notChar sep) x' = true ->
  x +:+ String sep y = x' +:+ String sep y' -> x = x' /\ y = y'.
Proof.
  revert x'. induction x as [|c x IH]; intros [|c' x'] Hx Hx' Heq; simpl in *.
  - by injection Heq.
  - injection Heq as <- _. apply andb_prop in Hx' as [Hc _].
    unfold notChar in Hc. by rewrite Ascii.eqb_refl in Hc.
  - injection Heq as -> _. apply andb_prop in Hx as [Hc _].
    unfold notChar in Hc. by rewrite Ascii.eqb_refl in Hc.
  - injection Heq as -> Heq. apply andb_prop in Hx as [_ Hx].
    apply andb_prop in Hx' as [_ Hx'].
    destruct (IH x' Hx Hx' Heq) as [-> ->]. done.
Qed.

Lemma allChars_toLowerCase_comma s :
  allChars (notChar ",") (JS.toLowerCase s) = allChars (notChar ",") s.
Proof.
  induction s as [|c s IH]; [done|]. simpl. unfold notChar at 1 3.
  by rewrite toLowerChar_comma, IH.
Qed.

(** X8: keys do not collide: two accepted lookup lines get the same key
    exactly when their port tokens and their protocol tokens agree up to
    letter case. *)
Theorem lookup_keys_collide_iff (line line' a b c a' b' c' : string)
    (e e' : LookupEntry) :
  parseCSVLine line LOOKUP_DEFAULT_FORMAT = Some e ->
  parseCSVLine line' LOOKUP_DEFAULT_FORMAT = Some e' ->
  JS.split "," (JS.trim line) = [a; b; c] ->
  JS.split "," (JS.trim line') = [a'; b'; c'] ->
  key e = key e' <->
  JS.toLowerCase a = JS.toLowerCase a' /\ JS.toLowerCase b = JS.toLowerCase b'.
Proof.
  intros He He' Hs Hs'.
  destruct (parseCSVLine_inv _ _ He) as (a0 & b0 & c0 & Hs0 & _ & _ & _ & ->).
  destruct (parseCSVLine_inv _ _ He') as (a1 & b1 & c1 & Hs1 & _ & _ & _ & ->).
  rewrite Hs in Hs0. rewrite Hs' in Hs1.
  injection Hs0 as <- <- <-. injection Hs1 as <- <- <-.
  simpl. rewrite !toLowerCase_app. simpl.
  split; [|by intros [-> ->]].
  destruct (split_inv "," (JS.trim line)) as [_ Hall].
  destruct (split_inv "," (JS.trim line')) as [_ Hall'].
  rewrite Hs in Hall. rewrite Hs' in Hall'.
  apply Forall_cons in Hall as [Ha _]. apply Forall_cons in Hall' as [Ha' _].
  apply app_sep_inj; by rewrite allChars_toLowerCase_comma.
Qed.

(** ** Further properties of the counting loop *)

Lemma length_filter_app_one {A} (P : A -> Prop) `{!forall x, Decision (P x)} x (l : list A) :
  length (filter P (x :: l)) = (if decide (P x) then 1 else 0) + length (filter P l).
Proof. rewrite filter_cons. by destruct (decide (P x)). Qed.

Lemma foldl_countLog_counts table logs tc pc :
  (forall tag,
      JSMap.count (foldl (countLog table) (tc, pc) logs).1 tag
      = JSMap.count tc tag + length (filter (fun log => tagOfLog table log = tag) logs)) /\
  (forall k,
      JSMap.count (foldl (countLog table) (tc, pc) logs).2 k
      = JSMap.count pc k + length (filter (fun log => joinKey log = k) logs)).
Proof.
  revert tc pc. induction logs as [|log logs IH]; intros tc pc.
  - split; intros; simpl; lia.
  - change (foldl (countLog table) (tc, pc) (log :: logs))
      with (foldl (countLog table)
              (increment tc (tagOfLog table log), increment pc (joinKey log)) logs).
    destruct (IH (increment tc (tagOfLog table log)) (increment pc (joinKey log)))
      as [IH1 IH2].
    split; intros k.
    + rewrite IH1, JSMapFacts.count_increment, length_filter_app_one.
      case_bool_decide; destruct (decide (tagOfLog table log = k)); try done; lia.
    + rewrite IH2, JSMapFacts.count_increment, length_filter_app_one.
      case_bool_decide; destruct (decide (joinKey log = k)); try done; lia.
Qed.

(** X9: what the loop computes.  The count of a tag is the number of
    records whose tag it is ("untagged" for a join key without a lookup
    entry), and the count of a port/protocol key is the number of records
    with that join key. *)
Theorem countLogs_counts (logs : list FlowRecord) (table : LookupTable) :
  (forall tag,
      JSMap.count (countLogs logs table).1 tag
      = length (filter (fun log => tagOfLog table log = tag) logs)) /\
  (forall k,
      JSMap.count (countLogs logs table).2 k
      = length (filter (fun log => joinKey log = k) logs)).
Proof.
  unfold countLogs.
  destruct (foldl_countLog_counts table logs tagCounts0 portProtocolCounts0) as [H1 H2].
  split; intros k; [rewrite H1|rewrite H2]; unfold JSMap.count; simpl; [|done].
  by destruct (decide ("untagged" = k)).
Qed.

Lemma foldl_countLog_present table logs tc pc k :
  (JSMap.get (foldl (countLog table) (tc, pc) logs).1 k <> None ->
   JSMap.get tc k <> None \/ exists log, log ∈ logs /\ tagOfLog table log = k) /\
  (JSMap.get (foldl (countLog table) (tc, pc) logs).2 k <> None ->
   JSMap.get pc k <> None \/ exists log, log ∈ logs /\ joinKey log = k).
Proof.
  revert tc pc. induction logs as [|log logs IH]; intros tc pc; [by split; left|].
  change (foldl (countLog table) (tc, pc) (log :: logs))
    with (foldl (countLog table)
            (increment tc (tagOfLog table log), increment pc (joinKey log)) logs).
  destruct (IH (increment tc (tagOfLog table log)) (increment pc (joinKey log)))
    as [IH1 IH2].
  split.
  - intros [H|(l & Hl & Hk)]%IH1.
    + destruct (decide (tagOfLog table log = k)) as [E|E].
      * right. exists log. split; [apply list_elem_of_here|done].
      * left. by rewrite JSMapFacts.get_increment_ne in H.
    + right. exists l. split; [by apply list_elem_of_further|done].
  - intros [H|(l & Hl & Hk)]%IH2.
    + destruct (decide (joinKey log = k)) as [E|E].
      * right. exists log. split; [apply list_elem_of_here|done].
      * left. by rewrite JSMapFacts.get_increment_ne in H.
    + right. exists l. split; [by apply list_elem_of_further|done].
Qed.

Lemma length_filter_pos {A} (P : A -> Prop) `{!forall x, Decision (P x)} (l : list A) x :
  x ∈ l -> P x -> 1 <= length (filter P l).
Proof.
  intros Hin HP. assert (x ∈ filter P l) as Hf by by apply list_elem_of_filter.
  destruct (filter P l); [by apply elem_of_nil in Hf|simpl; lia].
Qed.

(** X10: the loop reports only the keys it saw: every port/protocol key in
    the result is the join key of some record, and its count is at least
    1. *)
Theorem countLogs_keys_seen (logs : list FlowRecord) (table : LookupTable)
    (k : string) (n : nat) :
  JSMap.get (countLogs logs table).2 k = Some n ->
  1 <= n /\ exists log, log ∈ logs /\ joinKey log = k.
Proof.
  intros Hget.
  destruct (foldl_countLog_counts table logs tagCounts0 portProtocolCounts0)
    as [_ Hkey].
  destruct (foldl_countLog_present table logs tagCounts0 portProtocolCounts0 k)
    as [_ Pkey].
  fold (countLogs logs table) in Pkey, Hkey.
  destruct Pkey as [?|(log & Hin & Hk)]; [by rewrite Hget|done|].
  split; [|by exists log].
  specialize (Hkey k). unfold JSMap.count in Hkey. rewrite Hget in Hkey.
  simpl in Hkey. rewrite Hkey. by eapply length_filter_pos.
Qed.

(** X11: the loop reports only the tags it used: every tag in the result
    other than the seeded "untagged" is the lookup tag of some record and has
    a count of at least 1.  Only "untagged" can be reported with a count of
    0. *)
Theorem countLogs_tags_seen (logs : list FlowRecord) (table : LookupTable)
    (tag : string) (n : nat) :
  JSMap.get (countLogs logs table).1 tag = Some n ->
  tag = "untagged" \/
  (1 <= n /\ exists log, log ∈ logs /\ table !! joinKey log = Some tag).
Proof.
  intros Hget.
  destruct (foldl_countLog_counts table logs tagCounts0 portProtocolCounts0)
    as [Htag _].
  destruct (foldl_countLog_present table logs tagCounts0 portProtocolCounts0 tag)
    as [Ptag _].
  fold (countLogs logs table) in Ptag, Htag.
  destruct (decide (tag = "untagged")) as [|Hne]; [by left|right].
  destruct Ptag as [H|(log & Hin & Hk)]; [by rewrite Hget| |].
  { simpl in H. by destruct (decide ("untagged" = tag)). }
  split.
  - specialize (Htag tag). unfold JSMap.count in Htag. rewrite Hget in Htag.
    simpl in Htag. rewrite decide_False in Htag by done.
    simpl in Htag. rewrite Htag. by eapply length_filter_pos.
  - exists log. split; [done|]. unfold tagOfLog, tagOf in Hk.
    destruct (table !! joinKey log); simpl in Hk; by subst.
Qed.

(** *** Order of the entries *)

Example firstOccurrences_ex :
  firstOccurrences ["b"; "a"; "b"; "c"; "a"] = ["b"; "a"; "c"].
Proof. reflexivity. Qed.

Lemma set_keys m k v :
  (JSMap.set m k v).*1 = if decide (k ∈ m.*1) then m.*1 else m.*1 ++ [k].
Proof.
  induction m as [|[k0 v0] m IH].
  - by destruct (decide (k ∈ ([] : JSMap.t).*1)) as [?%elem_of_nil|].
  - change (((k0, v0) :: m).*1) with (k0 :: m.*1).
    simpl JSMap.set. destruct (decide (k0 = k)) as [->|Hne].
    + change (((k, v) :: m).*1) with (k :: m.*1).
      rewrite decide_True; [done|]. apply list_elem_of_here.
    + change (((k0, v0) :: JSMap.set m k v).*1) with (k0 :: (JSMap.set m k v).*1).
      rewrite IH. destruct (decide (k ∈ m.*1)) as [Hin|Hnin].
      * rewrite decide_True; [done|]. by apply list_elem_of_further.
      * rewrite decide_False; [done|]. rewrite elem_of_cons. by intros [->|?].
Qed.

Lemma increment_keys m k :
  (increment m k).*1 = if decide (k ∈ m.*1) then m.*1 else m.*1 ++ [k].
Proof.
  unfold increment. rewrite set_keys.
  destruct (JSMap.missing m k); [|done].
  rewrite set_keys. destruct (decide (k ∈ m.*1)) as [Hin|Hnin].
  - by rewrite ?decide_True by done.
  - rewrite decide_True; [done|]. rewrite elem_of_app, list_elem_of_singleton. auto.
Qed.

Lemma filter_filter_new (seen : list string) k (l : list string) :
  k ∈ seen ->
  filter (fun x => x ∉ seen) (filter (fun k' => k' <> k) l)
  = filter (fun x => x ∉ seen) l.
Proof.
  intros Hk. induction l as [|x l IH]; [done|].
  rewrite !filter_cons. destruct (decide (x <> k)) as [Hx|Hx].
  - rewrite filter_cons. rewrite IH. done.
  - rewrite IH. apply dec_stable in Hx. subst x.
    by rewrite decide_False by (intros H; by apply H).
Qed.

Lemma filter_snoc_seen (seen : list string) k (l : list string) :
  filter (fun x => x ∉ seen ++ [k]) l
  = filter (fun x => x ∉ seen) (filter (fun k' => k' <> k) l).
Proof.
  induction l as [|x l IH]; [done|].
  rewrite !filter_cons, IH. destruct (decide (x <> k)) as [Hx|Hx].
  - rewrite filter_cons.
    destruct (decide (x ∉ seen ++ [k])) as [H1|H1], (decide (x ∉ seen)) as [H2|H2];
      try done; exfalso.
    + apply H1. apply elem_of_app. left. by apply dec_stable.
    + apply H1. intros [?|?%list_elem_of_singleton]%elem_of_app; done.
  - apply dec_stable in Hx. subst x.
    rewrite decide_False; [done|]. intros H. apply H.
    apply elem_of_app. right. by apply list_elem_of_singleton.
Qed.

Lemma foldl_increment_keys (m : JSMap.t) (keys : list string) :
  (foldl increment m keys).*1
  = m.*1 ++ filter (fun x => x ∉ m.*1) (firstOccurrences keys).
Proof.
  revert m. induction keys as [|k keys IH]; intros m.
  - simpl. by rewrite app_nil_r.
  - simpl foldl. rewrite IH, increment_keys. simpl firstOccurrences.
    rewrite filter_cons. destruct (decide (k ∈ m.*1)) as [Hin|Hnin].
    + rewrite decide_False by (intros H; by apply H).
      by rewrite filter_filter_new.
    + rewrite decide_True by done. rewrite <- app_assoc. simpl.
      by rewrite filter_snoc_seen.
Qed.

Lemma foldl_countLog_increment table logs tc pc :
  foldl (countLog table) (tc, pc) logs
  = (foldl increment tc (tagOfLog table <$> logs),
     foldl increment pc (joinKey <$> logs)).
Proof.
  revert tc pc. induction logs as [|log logs IH]; intros tc pc; [done|].
  simpl. by rewrite <- IH.
Qed.

Lemma filter_not_nil (l : list string) : filter (fun x => x ∉ @nil string) l = l.
Proof.
  induction l as [|x l IH]; [done|]. rewrite filter_cons, IH.
  rewrite decide_True; [done|]. apply not_elem_of_nil.
Qed.

Lemma filter_not_singleton k (l : list string) :
  filter (fun x => x ∉ [k]) l = filter (fun k' => k' <> k) l.
Proof.
  induction l as [|x l IH]; [done|]. rewrite !filter_cons, IH.
  destruct (decide (x ∉ [k])) as [H|H], (decide (x <> k)) as [H'|H']; try done; exfalso.
  - apply H'. intros ->. apply H, list_elem_of_here.
  - apply H. by intros ?%list_elem_of_singleton.
Qed.

(** X12: the order of the two tables.  The port/protocol keys stand in the
    order in which the records first show them; the tags likewise, after
    "untagged", which always stands first. *)
Theorem countLogs_order (logs : list FlowRecord) (table : LookupTable) :
  (countLogs logs table).2.*1 = firstOccurrences (joinKey <$> logs) /\
  (countLogs logs table).1.*1 = firstOccurrences ("untagged" :: (tagOfLog table <$> logs)).
Proof.
  unfold countLogs. rewrite foldl_countLog_increment. simpl fst. simpl snd.
  rewrite !foldl_increment_keys. split.
  - simpl. apply filter_not_nil.
  - simpl. f_equal. apply filter_not_singleton.
Qed.

(** ** The report *)

Lemma appendCounts_app o1 o2 (m : JSMap.t) :
  appendCounts (o1 +:+ o2) m = o1 +:+ appendCounts o2 m.
Proof.
  revert o2. induction m as [|[k v] m IH]; intros o2; [done|].
  simpl. by rewrite append_assoc, IH.
Qed.

Lemma decimal_no_char c n :
  JS.isDigit c = false -> allChars (notChar c) (decimal n) = true.
Proof.
  intros Hc. unfold decimal. induction (Nat.to_uint n) as [|u IH|u IH|u IH|u IH|u IH
    |u IH|u IH|u IH|u IH|u IH]; [done|..]; simpl; rewrite IH, andb_true_r;
    unfold notChar; apply negb_true_iff, Ascii.eqb_neq; by intros <-.
Qed.

Lemma reportLine_no_newline k v :
  allChars (notChar "010") k = true ->
  allChars (notChar "010") (reportLine (k, v)) = true.
Proof.
  intros Hk. unfold reportLine. simpl.
  by rewrite !allChars_app, Hk, decimal_no_char.
Qed.

Lemma appendCounts_nil o (m : JSMap.t) : appendCounts o m = o +:+ appendCounts "" m.
Proof. rewrite <- (append_nil_r o) at 1. apply appendCounts_app. Qed.

Lemma split_appendCounts (m : JSMap.t) rest :
  Forall (fun entry => allChars (notChar "010") entry.1 = true) m ->
  JS.split "010" (appendCounts "" m +:+ rest) = (reportLine <$> m) ++ JS.split "010" rest.
Proof.
  induction 1 as [|[k v] m Hk _ IH]; [done|].
  simpl appendCounts. rewrite append_nil_l, appendCounts_nil.
  replace (((k +:+ "=" +:+ decimal v +:+ String "010" "") +:+ appendCounts "" m) +:+ rest)
    with (reportLine (k, v) +:+ String "010" (appendCounts "" m +:+ rest))
    by (unfold reportLine; simpl; by rewrite !append_assoc).
  rewrite split_app_sep by by apply reportLine_no_newline.
  by rewrite IH.
Qed.

Lemma report_eq (tagCounts portProtocolCounts : JSMap.t) :
  report (tagCounts, portProtocolCounts)
  = "Tag counts" +:+ String "010" (appendCounts "" tagCounts +:+
      String "010" ("Dest. Port, Protocol counts" +:+
        String "010" (appendCounts "" portProtocolCounts +:+ ""))).
Proof.
  unfold report. rewrite (appendCounts_nil _ portProtocolCounts).
  rewrite (appendCounts_nil _ tagCounts). rewrite append_nil_l, append_nil_r.
  by rewrite !append_assoc.
Qed.

(** X13: the lines of the report.  When no key contains a line break, the
    report is the header "Tag counts", one line [key=count] per tag in the
    order of the table, an empty line, the header "Dest. Port, Protocol
    counts", one line per port/protocol key, and a final line break. *)
Theorem report_lines (tagCounts portProtocolCounts : JSMap.t) :
  Forall (fun entry => allChars (notChar "010") entry.1 = true) tagCounts ->
  Forall (fun entry => allChars (notChar "010") entry.1 = true) portProtocolCounts ->
  JS.split "010" (report (tagCounts, portProtocolCounts))
  = ["Tag counts"] ++ (reportLine <$> tagCounts)
    ++ [""; "Dest. Port, Protocol counts"] ++ (reportLine <$> portProtocolCounts)
    ++ [""].
Proof.
  intros Htc Hpc. rewrite report_eq.
  rewrite split_app_sep by done. simpl app. f_equal.
  rewrite split_appendCounts by done. f_equal.
  rewrite <- (append_nil_l (String "010" _)), split_app_sep by done. f_equal.
  rewrite split_app_sep by done. f_equal.
  by rewrite split_appendCounts.
Qed.

Lemma toLowerChar_newline c :
  Ascii.eqb (JS.toLowerChar c) "010" = Ascii.eqb c "010".
Proof. by destruct c as [[] [] [] [] [] [] [] []]. Qed.

Lemma allChars_toLowerCase_newline s :
  allChars (notChar "010") (JS.toLowerCase s) = allChars (notChar "010") s.
Proof.
  induction s as [|c s IH]; [done|]. simpl. unfold notChar at 1 3.
  by rewrite toLowerChar_newline, IH.
Qed.

(** The tokens of a line of a buffer contain no line break. *)
Lemma line_tokens_no_newline sep buf line :
  line ∈ JS.split "010" buf ->
  Forall (fun t => allChars (notChar "010") t = true) (JS.split sep (JS.trim line)).
Proof.
  intros Hline. destruct (split_inv "010" buf) as [_ Hlines].
  rewrite Forall_forall in Hlines. specialize (Hlines _ Hline).
  apply allChars_split. unfold JS.trim. by apply allChars_trimEnd, allChars_trimStart.
Qed.

Lemma buildLookupTable_tag_no_newline csv k v :
  buildLookupTable csv !! k = Some v -> allChars (notChar "010") v = true.
Proof.
  unfold buildLookupTable.
  intros [Hempty|(line & Hline & Hparse)]%foldl_addLookupLine_sound; [done|].
  destruct (parseCSVLine_inv _ _ Hparse) as (a & b & c & Hsplit & _ & _ & _ & [= -> ->]).
  pose proof (line_tokens_no_newline "," _ _ Hline) as Htok. rewrite Hsplit in Htok.
  apply Forall_cons in Htok as [_ Htok]. apply Forall_cons in Htok as [_ Htok].
  by apply Forall_cons in Htok as [Htok _].
Qed.

Lemma get_of_entry (m : JSMap.t) k n : (k, n) ∈ m -> JSMap.get m k <> None.
Proof.
  induction m as [|[k0 v0] m IH]; [by intros ?%elem_of_nil|].
  intros [[= <- <-]|Hin]%elem_of_cons; simpl.
  - by rewrite decide_True.
  - destruct (decide (k0 = k)); [done|by apply IH].
Qed.

Section ReportFacts.

Variable protocol_numbers : Z -> option ProtocolNumber.

Lemma parseLog_joinKey_no_newline logfile (r : FlowRecord) :
  (forall z entry, protocol_numbers z = Some entry ->
                   allChars (notChar "010") (name entry) = true) ->
  r ∈ parseLog protocol_numbers logfile ->
  allChars (notChar "010") (joinKey r) = true.
Proof.
  intros Hnames. unfold parseLog. intros (line & Hline & Hr)%list_elem_of_omap.
  unfold parseLineFromLog in Hr.
  destruct (Nat.eqb_spec (length (JS.split " " (JS.trim line)))
              (length AVAILABLE_FIELDS_DEFAULT)) as [E|]; [|done].
  simpl in Hr. injection Hr as <-.
  pose proof (line_tokens_no_newline " " _ _ Hline) as Htok.
  rewrite Forall_forall in Htok.
  destruct (lookup_lt_is_Some_2 (JS.split " " (JS.trim line)) 6) as [d Hd];
    [rewrite E; simpl; lia|].
  destruct (lookup_lt_is_Some_2 (JS.split " " (JS.trim line)) 7) as [p Hp];
    [rewrite E; simpl; lia|].
  unfold joinKey, serialize.
  rewrite (reduceFields_lookup protocol_numbers _ _ 0 _ 6 "dstport" d);
    [|apply AVAILABLE_FIELDS_DEFAULT_NoDup | lia | done | done].
  rewrite (reduceFields_lookup protocol_numbers _ _ 0 _ 7 "protocol" p);
    [|apply AVAILABLE_FIELDS_DEFAULT_NoDup | lia | done | done].
  rewrite handleFields_other by done. simpl.
  rewrite allChars_toLowerCase_newline, !allChars_app.
  rewrite (Htok d) by (by eapply list_elem_of_lookup_2). simpl.
  rewrite handleFields_protocol.
  destruct (JS.parseInt p ≫= protocol_numbers) as [entry|] eqn:En.
  - destruct (JS.parseInt p) as [z|]; [|done]. simpl in En. by eapply Hnames.
  - by eapply Htok, list_elem_of_lookup_2.
Qed.

(** X14: the report of a run.  When no protocol name of the table contains
    a line break, the report of [main] consists of the header, the line of
    "untagged" (always the first tag, also with a count of 0), one line per
    other tag, an empty line, the second header, one line per port/protocol
    key, and a final line break. *)
Theorem main_report_lines (lookupBuffer logfileBuffer : string) :
  (forall z entry, protocol_numbers z = Some entry ->
                   allChars (notChar "010") (name entry) = true) ->
  exists untagged tags,
    (main protocol_numbers lookupBuffer logfileBuffer).1 = ("untagged", untagged) :: tags /\
    JS.split "010" (report (main protocol_numbers lookupBuffer logfileBuffer))
    = ["Tag counts"; "untagged=" +:+ decimal untagged] ++ (reportLine <$> tags)
      ++ [""; "Dest. Port, Protocol counts"]
      ++ (reportLine <$> (main protocol_numbers lookupBuffer logfileBuffer).2)
      ++ [""].
Proof.
  intros Hnames. unfold main.
  set (logs := parseLog protocol_numbers logfileBuffer).
  set (table := buildLookupTable lookupBuffer).
  destruct (countLogs logs table) as [tc pc] eqn:Ecounts.
  assert (tc.*1 = firstOccurrences ("untagged" :: (tagOfLog table <$> logs))) as Horder.
  { replace tc with (countLogs logs table).1 by by rewrite Ecounts.
    unfold countLogs. rewrite foldl_countLog_increment. simpl fst.
    rewrite foldl_increment_keys. simpl. f_equal. apply filter_not_singleton. }
  destruct tc as [|[k untagged] tags]; [done|]. simpl in Horder.
  injection Horder as -> _. exists untagged, tags. split; [done|].
  pose proof (foldl_countLog_present table logs tagCounts0 portProtocolCounts0) as Hpresent.
  fold (countLogs logs table) in Hpresent. rewrite Ecounts in Hpresent.
  rewrite report_lines; [done| |].
  - apply Forall_forall. intros [t n] Hin. simpl.
    destruct (Hpresent t) as [Htag _].
    destruct (Htag (get_of_entry _ _ _ Hin)) as [H|(log & _ & Hlog)].
    + simpl in H. by destruct (decide ("untagged" = t)) as [<-|].
    + unfold tagOfLog, tagOf in Hlog.
      destruct (table !! joinKey log) as [v|] eqn:Ev; simpl in Hlog; subst t; [|done].
      by eapply buildLookupTable_tag_no_newline.
  - apply Forall_forall. intros [key n] Hin. simpl.
    destruct (Hpresent key) as [_ Hkey].
    destruct (Hkey (get_of_entry _ _ _ Hin)) as [H|(log & Hlog & <-)]; [done|].
    by eapply parseLog_joinKey_no_newline.
Qed.

(** *** Empty inputs *)

Lemma parseLog_ws logfile :
  allChars JS.isWhiteSpace logfile = true -> parseLog protocol_numbers logfile = [].
Proof. intros H. unfold parseLog. by rewrite trim_ws. Qed.

(** X15: a log that is empty or all white space gives no record: both tables
    are as they start, and the report shows "untagged=0" and no key,
    whatever the lookup file holds. *)
Theorem empty_log_report (lookupBuffer logfileBuffer : string) :
  allChars JS.isWhiteSpace logfileBuffer = true ->
  parseLog protocol_numbers logfileBuffer = [] /\
  main protocol_numbers lookupBuffer logfileBuffer = ([("untagged", 0)], []) /\
  report (main protocol_numbers lookupBuffer logfileBuffer)
  = "Tag counts" +:+ String "010" ("untagged=0" +:+ String "010"
      (String "010" ("Dest. Port, Protocol counts" +:+ String "010" ""))).
Proof.
  intros H. unfold main. rewrite parseLog_ws by done. by repeat split.
Qed.

Lemma increment_untagged n :
  increment [("untagged", n)] "untagged" = [("untagged", n + 1)].
Proof. by destruct n. Qed.

Lemma foldl_increment_untagged n (tags : list string) :
  Forall (fun t => t = "untagged") tags ->
  foldl increment [("untagged", n)] tags = [("untagged", n + length tags)].
Proof.
  intros H. revert n. induction H as [|t tags -> _ IH]; intros n.
  - simpl. by rewrite Nat.add_0_r.
  - simpl foldl. rewrite increment_untagged, IH. simpl length.
    replace (n + 1 + length tags) with (n + S (length tags)) by lia. done.
Qed.

(** X16: a lookup file that is empty or all white space gives the empty
    table, and then every record of the log is counted as "untagged": the
    tag table is the single entry "untagged" with the number of records. *)
Theorem empty_lookup_all_untagged (lookupBuffer logfileBuffer : string) :
  allChars JS.isWhiteSpace lookupBuffer = true ->
  buildLookupTable lookupBuffer = ∅ /\
  (main protocol_numbers lookupBuffer logfileBuffer).1
  = [("untagged", length (parseLog protocol_numbers logfileBuffer))].
Proof.
  intros H.
  assert (buildLookupTable lookupBuffer = ∅) as Hempty.
  { unfold buildLookupTable. by rewrite trim_ws. }
  split; [done|]. unfold main, countLogs. rewrite Hempty.
  rewrite foldl_countLog_increment. simpl fst. unfold tagCounts0.
  rewrite foldl_increment_untagged; [by rewrite length_fmap|].
  apply Forall_fmap, Forall_forall. intros log _. simpl.
  unfold tagOfLog, tagOf. by rewrite lookup_empty.
Qed.

End ReportFacts.

(** ** The command line *)

Module CLIFacts.

Import CLI.

Lemma scanArgs_help argv processedArgs :
  "--help" ∈ argv -> scanArgs argv processedArgs = Exit 0.
Proof.
  revert processedArgs. induction argv as [|arg rest IH]; intros p Hin.
  - by apply elem_of_nil in Hin.
  - simpl. apply elem_of_cons in Hin as [<-|Hin]; [done|].
    repeat case_bool_decide; try done; by apply IH.
Qed.

Lemma scanArgs_flagValue argv processedArgs :
  "--help" ∉ argv ->
  scanArgs argv processedArgs
  = Done {| logfile := flagValue "--logfile" argv (logfile processedArgs);
            lookup := flagValue "--lookup-file" argv (lookup processedArgs);
            output := flagValue "--output-file" argv (output processedArgs) |}.
Proof.
  revert processedArgs. induction argv as [|arg rest IH]; intros p Hhelp.
  - by destruct p.
  - apply not_elem_of_cons in Hhelp as [Hne Hhelp]. simpl.
    repeat case_bool_decide; simplify_eq; rewrite IH by done; done.
Qed.

Lemma flagValue_absent flag argv default :
  flag ∉ argv -> flagValue flag argv default = default.
Proof.
  revert default. induction argv as [|arg rest IH]; intros d Hin; [done|].
  apply not_elem_of_cons in Hin as [Hne Hin]. simpl.
  rewrite bool_decide_eq_false_2 by done. by apply IH.
Qed.

Lemma flagValue_last flag pre post default :
  flag ∉ post -> flagValue flag (pre ++ flag :: post) default = head post.
Proof.
  intros Hpost. revert default. induction pre as [|arg pre IH]; intros d.
  - simpl. rewrite bool_decide_eq_true_2 by done. by apply flagValue_absent.
  - simpl. apply IH.
Qed.

Section WithFiles.

Variable lstat : string -> option bool.

(** X17: "--help" anywhere on the command line, also where the value of
    another flag is expected, ends the program with exit status 0 before any
    file is looked at. *)
Theorem help_exits_0 (argv : list string) :
  "--help" ∈ argv ->
  parseArgs lstat argv = Exit 0 /\ checkedArgs lstat argv = Exit 0.
Proof.
  intros H. unfold checkedArgs, parseArgs. by rewrite scanArgs_help.
Qed.

(** X18: without "--help", each of the three names is the argument that
    follows the last occurrence of its flag ([undefined] when the flag is the
    last argument), and the default name when the flag does not occur. *)
Theorem last_flag_wins (argv : list string) :
  "--help" ∉ argv ->
  exists processedArgs,
    scanArgs argv defaults = Done processedArgs /\
    (forall pre post, argv = pre ++ "--logfile" :: post -> "--logfile" ∉ post ->
                      logfile processedArgs = head post) /\
    ("--logfile" ∉ argv -> logfile processedArgs = Some "example.log") /\
    (forall pre post, argv = pre ++ "--lookup-file" :: post -> "--lookup-file" ∉ post ->
                      lookup processedArgs = head post) /\
    ("--lookup-file" ∉ argv -> lookup processedArgs = Some "example.csv") /\
    (forall pre post, argv = pre ++ "--output-file" :: post -> "--output-file" ∉ post ->
                      output processedArgs = head post) /\
    ("--output-file" ∉ argv -> output processedArgs = Some "processed.txt").
Proof.
  intros Hhelp. eexists. split; [by apply scanArgs_flagValue|]. simpl.
  repeat split.
  all: try (intros pre post -> Hpost; by apply flagValue_last).
  all: intros Habsent; by apply flagValue_absent.
Qed.

(** X19: the program goes on only with three names of regular files: when
    the argument check hands on [processedArgs], "--help" was not given and
    each of the log file, the lookup file and the output file was named and
    is an existing regular file; the output file, too, must exist already. *)
Theorem checkedArgs_files (argv : list string) (parsedArgs : ProcessedArgs) :
  checkedArgs lstat argv = Done parsedArgs ->
  ("--help" ∉ argv) /\
  scanArgs argv defaults = Done parsedArgs /\
  exists logfileName lookupName outputName,
    logfile parsedArgs = Some logfileName /\ lstat logfileName = Some true /\
    lookup parsedArgs = Some lookupName /\ lstat lookupName = Some true /\
    output parsedArgs = Some outputName /\ lstat outputName = Some true.
Proof.
  unfold checkedArgs, parseArgs. intros H.
  destruct (decide ("--help" ∈ argv)) as [Hin|Hnin].
  { by rewrite scanArgs_help in H. }
  split; [done|]. destruct (scanArgs argv defaults) as [code|a]; [done|].
  unfold validateArgs, lstatArg in H.
  destruct (logfile a) as [n1|] eqn:E1; simpl in H; [|done].
  destruct (lstat n1) as [[]|] eqn:L1; simpl in H;
    [|by destruct (lookup a ≫= lstat), (output a ≫= lstat)|done].
  destruct (lookup a) as [n2|] eqn:E2; simpl in H; [|done].
  destruct (lstat n2) as [[]|] eqn:L2; simpl in H;
    [|by destruct (output a ≫= lstat)|done].
  destruct (output a) as [n3|] eqn:E3; simpl in H; [|done].
  destruct (lstat n3) as [[]|] eqn:L3; simpl in H; [|done|done].
  injection H as <-. split; [done|]. by exists n1, n2, n3.
Qed.

(** X20: when the argument check ends the program, the exit status is 0
    exactly when "--help" was given, and 1 otherwise. *)
Theorem checkedArgs_exit (argv : list string) (code : nat) :
  checkedArgs lstat argv = Exit code ->
  (code = 0 /\ "--help" ∈ argv) \/ (code = 1 /\ "--help" ∉ argv).
Proof.
  unfold checkedArgs, parseArgs. intros H.
  destruct (decide ("--help" ∈ argv)) as [Hin|Hnin].
  - rewrite scanArgs_help in H by done. injection H as <-. by left.
  - rewrite scanArgs_flagValue in H by done.
    destruct (validateArgs _) in H; [done|]. injection H as <-. by right.
Qed.

(** X21: a flag given as the last argument, without a value, ends the
    program with exit status 1, whatever files exist. *)
Theorem dangling_flag_exits_1 (pre : list string) (flag : string) :
  flag ∈ ["--logfile"; "--lookup-file"; "--output-file"] ->
  "--help" ∉ pre ->
  checkedArgs lstat (pre ++ [flag]) = Exit 1.
Proof.
  intros Hflag Hhelp. unfold checkedArgs, parseArgs.
  rewrite scanArgs_flagValue.
  - unfold validateArgs. simpl.
    rewrite !elem_of_cons, elem_of_nil in Hflag.
    destruct Hflag as [->|[->|[->|[]]]];
      rewrite (flagValue_last _ pre []) by apply not_elem_of_nil; simpl.
    all: repeat match goal with
                | |- context [lstatArg lstat ?x] => destruct (lstatArg lstat x)
                end; done.
  - rewrite elem_of_app, list_elem_of_singleton. intros [?|<-]; [done|].
    rewrite !elem_of_cons, elem_of_nil in Hflag.
    by destruct Hflag as [?|[?|[?|[]]]].
Qed.

End WithFiles.

End CLIFacts.

(** ** When a record matches a lookup line *)

Section JoinFacts.

Variable protocol_numbers : Z -> option ProtocolNumber.

(** X22: a record parsed from a log line matches an accepted lookup line
    (its join key is the line's key) exactly when, up to letter case, the
    line's port token is the record's dstport token and the line's protocol
    token is the record's protocol after translation: the name of the table
    for a protocol number it knows, not the number.  (The dstport token is
    assumed free of commas.) *)
Theorem join_matches_iff (logLine csvLine dstport protocol a b tag : string)
    (r : FlowRecord) (e : LookupEntry) :
  parseLineFromLog protocol_numbers logLine AVAILABLE_FIELDS_DEFAULT = Some r ->
  JS.split " " (JS.trim logLine) !! 6 = Some dstport ->
  JS.split " " (JS.trim logLine) !! 7 = Some protocol ->
  allChars (notChar ",") dstport = true ->
  parseCSVLine csvLine LOOKUP_DEFAULT_FORMAT = Some e ->
  JS.split "," (JS.trim csvLine) = [a; b; tag] ->
  joinKey r = key e <->
  JS.toLowerCase dstport = JS.toLowerCase a /\
  JS.toLowerCase (handleFields protocol_numbers "protocol" protocol) = JS.toLowerCase b.
Proof.
  intros Hr Hd Hp Hcomma He Hsplit.
  assert (length (JS.split " " (JS.trim logLine)) = length AVAILABLE_FIELDS_DEFAULT)
    as Hlen.
  { unfold parseLineFromLog in Hr.
    by destruct (Nat.eqb_spec (length (JS.split " " (JS.trim logLine)))
                  (length AVAILABLE_FIELDS_DEFAULT)). }
  destruct (parseLineFromLog_field protocol_numbers logLine 6 "dstport" dstport
              Hlen eq_refl Hd) as (r1 & Hr1 & Hf1).
  destruct (parseLineFromLog_field protocol_numbers logLine 7 "protocol" protocol
              Hlen eq_refl Hp) as (r2 & Hr2 & Hf2).
  rewrite Hr in Hr1, Hr2. injection Hr1 as <-. injection Hr2 as <-.
  destruct (parseCSVLine_inv _ _ He) as (a0 & b0 & c0 & Hs0 & _ & _ & _ & ->).
  rewrite Hsplit in Hs0. injection Hs0 as <- <- <-.
  destruct (split_inv "," (JS.trim csvLine)) as [_ Hall].
  rewrite Hsplit in Hall. apply Forall_cons in Hall as [Ha _].
  unfold joinKey, serialize. rewrite Hf1, Hf2. simpl.
  rewrite handleFields_other by done. rewrite !toLowerCase_app. simpl.
  split; [|by intros [-> ->]].
  apply app_sep_inj; by rewrite allChars_toLowerCase_comma.
Qed.

End JoinFacts.

(** ** Further instances on sample inputs *)

Lemma parseLog_line_independent_witness :
  parseLog iana_sample
    (sample_line +:+ String "010" ("bad line" +:+ String "010" sample_line))
  = parseLog iana_sample (sample_line +:+ String "010" sample_line).
Proof.
  destruct (parseLog_line_independent iana_sample sample_line "bad line" sample_line
              eq_refl) as [_ H].
  apply H. vm_compute. discriminate.
Defined.

Lemma parseLog_records_witness :
  exists r, r ∈ parseLog iana_sample sample_line /\
            r !! "dstport" <> None /\ joinKey r = "80,tcp".
Proof.
  assert (exists r rest, parseLog iana_sample sample_line = r :: rest)
    as (r & rest & E).
  { destruct (parseLog iana_sample sample_line) as [|r rest] eqn:E';
      [vm_compute in E'; discriminate|eauto]. }
  exists r. assert (r ∈ parseLog iana_sample sample_line) as Hr
    by (rewrite E; apply list_elem_of_here).
  split; [exact Hr|].
  destruct (parseLog_records iana_sample sample_line r Hr)
    as (line & tokens & Hline & -> & Hlen & Hfields & Hdom & d & p & Hd & -> & Hkey).
  split.
  - apply Hdom. do 6 apply list_elem_of_further. apply list_elem_of_here.
  - vm_compute in Hline. apply list_elem_of_singleton in Hline. subst line.
    vm_compute in Hd. injection Hd as <-. rewrite Hkey. reflexivity.
Defined.

Lemma non_numeric_protocol_kept_witness :
  JS.parseInt "tcp" = None /\ handleFields iana_sample "protocol" "tcp" = "tcp".
Proof. apply (non_numeric_protocol_kept iana_sample "tcp"). reflexivity. Defined.

Lemma buildLookupTable_sound_witness :
  exists line a b,
    line ∈ JS.split "010" (JS.trim sample_csv) /\
    JS.split "," (JS.trim line) = [a; b; "web"] /\
    a <> "" /\ b <> "" /\ "web" <> "" /\
    "80,tcp" = JS.toLowerCase (a +:+ "," +:+ b).
Proof. apply (buildLookupTable_sound sample_csv "80,tcp" "web"). reflexivity. Defined.

Lemma buildLookupTable_entries_witness :
  JS.toLowerCase "80,tcp" = "80,tcp" /\
  countChar "," "80,tcp" = 1 /\
  (exists port protocol,
      "80,tcp" = port +:+ "," +:+ protocol /\ port <> "" /\ protocol <> "") /\
  "web" <> "" /\
  allChars (notChar ",") "web" = true /\
  allChars (notChar "010") "web" = true.
Proof. apply (buildLookupTable_entries sample_csv "80,tcp" "web"). reflexivity. Defined.

Lemma lookup_keys_collide_iff_witness :
  "80,tcp" = "80,tcp" <->
  JS.toLowerCase "80" = JS.toLowerCase "80" /\ JS.toLowerCase "TCP" = JS.toLowerCase "tcp".
Proof.
  apply (lookup_keys_collide_iff "80,TCP,web" "80,tcp,other"
           "80" "TCP" "web" "80" "tcp" "other"
           {| key := "80,tcp"; value := Some "web" |}
           {| key := "80,tcp"; value := Some "other" |}); reflexivity.
Defined.

Lemma countLogs_keys_seen_witness :
  1 <= 1 /\ exists log, log ∈ [web_log; ssh_log] /\ joinKey log = "80,tcp".
Proof.
  apply (countLogs_keys_seen [web_log; ssh_log] web_table "80,tcp" 1). reflexivity.
Defined.

Lemma countLogs_tags_seen_witness :
  "web" = "untagged" \/
  (1 <= 1 /\ exists log, log ∈ [web_log; ssh_log] /\
                         web_table !! joinKey log = Some "web").
Proof.
  apply (countLogs_tags_seen [web_log; ssh_log] web_table "web" 1). reflexivity.
Defined.

Lemma report_lines_witness :
  JS.split "010" (report ([("untagged", 0); ("web", 2)], [("80,tcp", 2)]))
  = ["Tag counts"; "untagged=0"; "web=2"; ""; "Dest. Port, Protocol counts";
     "80,tcp=2"; ""].
Proof.
  apply (report_lines [("untagged", 0); ("web", 2)] [("80,tcp", 2)]);
    repeat constructor.
Defined.

Lemma iana_sample_names z entry :
  iana_sample z = Some entry -> allChars (notChar "010") (name entry) = true.
Proof.
  unfold iana_sample.
  destruct (z =? 1)%Z; [by intros [= <-]|].
  destruct (z =? 6)%Z; [by intros [= <-]|].
  destruct (z =? 17)%Z; [by intros [= <-]|done].
Qed.

Lemma main_report_lines_witness :
  exists untagged tags,
    (main iana_sample sample_csv upper_log).1 = ("untagged", untagged) :: tags /\
    JS.split "010" (report (main iana_sample sample_csv upper_log))
    = ["Tag counts"; "untagged=" +:+ decimal untagged] ++ (reportLine <$> tags)
      ++ [""; "Dest. Port, Protocol counts"]
      ++ (reportLine <$> (main iana_sample sample_csv upper_log).2)
      ++ [""].
Proof. apply (main_report_lines iana_sample sample_csv upper_log iana_sample_names). Defined.

Lemma empty_log_report_witness :
  parseLog iana_sample (String " " (String "010" "")) = [] /\
  main iana_sample sample_csv (String " " (String "010" "")) = ([("untagged", 0)], []) /\
  report (main iana_sample sample_csv (String " " (String "010" "")))
  = "Tag counts" +:+ String "010" ("untagged=0" +:+ String "010"
      (String "010" ("Dest. Port, Protocol counts" +:+ String "010" ""))).
Proof.
  apply (empty_log_report iana_sample sample_csv (String " " (String "010" ""))).
  reflexivity.
Defined.

Lemma empty_lookup_all_untagged_witness :
  buildLookupTable "" = ∅ /\
  (main iana_sample "" upper_log).1 = [("untagged", length (parseLog iana_sample upper_log))].
Proof. apply (empty_lookup_all_untagged iana_sample "" upper_log). reflexivity. Defined.

Lemma help_exits_0_witness :
  CLI.parseArgs CLI.sample_lstat ["node"; "main.mjs"; "--logfile"; "--help"] = CLI.Exit 0 /\
  CLI.checkedArgs CLI.sample_lstat ["node"; "main.mjs"; "--logfile"; "--help"] = CLI.Exit 0.
Proof.
  apply (CLIFacts.help_exits_0 CLI.sample_lstat ["node"; "main.mjs"; "--logfile"; "--help"]).
  do 3 apply list_elem_of_further. apply list_elem_of_here.
Defined.

Lemma last_flag_wins_witness :
  exists processedArgs,
    CLI.scanArgs ["node"; "main.mjs"; "--logfile"; "a.log"; "--logfile"; "b.log"]
      CLI.defaults = CLI.Done processedArgs /\
    CLI.logfile processedArgs = Some "b.log" /\
    CLI.lookup processedArgs = Some "example.csv".
Proof.
  destruct (CLIFacts.last_flag_wins
              ["node"; "main.mjs"; "--logfile"; "a.log"; "--logfile"; "b.log"])
    as (p & Hp & Hlog & _ & _ & Hlookup & _).
  { apply (bool_decide_unpack _). vm_compute. exact I. }
  exists p. split; [exact Hp|]. split.
  - apply (Hlog ["node"; "main.mjs"; "--logfile"; "a.log"] ["b.log"]); [reflexivity|].
    apply (bool_decide_unpack _). vm_compute. exact I.
  - apply Hlookup. apply (bool_decide_unpack _). vm_compute. exact I.
Defined.

Lemma checkedArgs_files_witness :
  ("--help" ∉ ["node"; "main.mjs"]) /\
  CLI.scanArgs ["node"; "main.mjs"] CLI.defaults = CLI.Done CLI.defaults /\
  exists logfileName lookupName outputName,
    CLI.logfile CLI.defaults = Some logfileName /\
    CLI.sample_lstat logfileName = Some true /\
    CLI.lookup CLI.defaults = Some lookupName /\
    CLI.sample_lstat lookupName = Some true /\
    CLI.output CLI.defaults = Some outputName /\
    CLI.sample_lstat outputName = Some true.
Proof.
  apply (CLIFacts.checkedArgs_files CLI.sample_lstat ["node"; "main.mjs"] CLI.defaults).
  reflexivity.
Defined.

Lemma checkedArgs_exit_witness :
  (1 = 0 /\ "--help" ∈ ["node"; "main.mjs"; "--logfile"; "dir"]) \/
  (1 = 1 /\ "--help" ∉ ["node"; "main.mjs"; "--logfile"; "dir"]).
Proof.
  apply (CLIFacts.checkedArgs_exit CLI.sample_lstat
           ["node"; "main.mjs"; "--logfile"; "dir"] 1).
  reflexivity.
Defined.

Lemma dangling_flag_exits_1_witness :
  CLI.checkedArgs CLI.sample_lstat (["node"; "main.mjs"] ++ ["--output-file"])
  = CLI.Exit 1.
Proof.
  apply (CLIFacts.dangling_flag_exits_1 CLI.sample_lstat ["node"; "main.mjs"]
           "--output-file").
  - do 2 apply list_elem_of_further. apply list_elem_of_here.
  - apply (bool_decide_unpack _). vm_compute. exact I.
Defined.

Lemma join_matches_iff_witness :
  "80,tcp" = "80,tcp" <->
  JS.toLowerCase "80" = JS.toLowerCase "80" /\
  JS.toLowerCase (handleFields iana_sample "protocol" "6") = JS.toLowerCase "tcp".
Proof.
  destruct (parseLineFromLog iana_sample sample_line AVAILABLE_FIELDS_DEFAULT)
    as [r|] eqn:Er; [|vm_compute in Er; discriminate].
  assert (joinKey r = "80,tcp") as Hkey.
  { vm_compute in Er. injection Er as <-. vm_compute. reflexivity. }
  rewrite <- Hkey at 1.
  apply (join_matches_iff iana_sample sample_line "80,tcp,web" "80" "6" "80" "tcp" "web"
           r {| key := "80,tcp"; value := Some "web" |}); try reflexivity.
  exact Er.
Defined.
